(** * Cookie-stamp mesh pipeline

    A shallow embedding of the mesh pipeline of the cookie-stamp designer:
    [utils/meshGenerator] (binarisation, silhouette selection, base plate,
    cutter wall, relief stamp) and the layout step of
    [components/Viewer3D.tsx] (fit, flip, footprint scale), followed by the
    pure parts of [services/geminiService] (aspect ratio, data URLs) and
    the state handlers of [App.tsx] (settings panel, gallery of designs).
    A JavaScript string is modelled by a string of 8-bit characters; the
    functions modelled only compare its characters with a separator.

    Numbers.  A JavaScript [number] is modelled by an exact rational [Q]:
    rounding is not modelled, and equalities between computed numbers are
    stated with [==].  A division whose divisor is zero yields a non-finite
    number in the source and [0] in [Q]; every statement below that depends
    on the value of a division carries the hypothesis that makes its
    divisor non-zero (or the source guards it), and the one place where the
    source reads an empty bounding box (whose corners are the infinities)
    is modelled by [None].

    Libraries.  The source builds its solids with three.js and reads and
    writes pixels through the 2D canvas.  Module [Three] models the part of
    three.js the source calls; what the browser computes (trigonometric
    samples, the tracer, the blurred shadow) is taken through the classes
    [Trig], [Tracer] and [Canvas2D], and the one helper whose definition is
    not at hand, [flipGeometryY], through the class [Flip]. *)

From Stdlib Require Import QArith Qminmax Qabs Lqa ZArith Lia List Bool.
From Stdlib Require Ascii String.
Import ListNotations.
Local Open Scope Q_scope.

(** ** Comparisons on numbers *)

(** [a < b] as the source tests it. *)
Definition Qltb (a b : Q) : bool := negb (Qle_bool b a).

Lemma Qltb_true (a b : Q) : Qltb a b = true <-> a < b.
Proof.
  unfold Qltb. rewrite negb_true_iff. split; intro H.
  - apply Qnot_le_lt. intro L. apply Qle_bool_iff in L. congruence.
  - destruct (Qle_bool b a) eqn:E; [|reflexivity].
    apply Qle_bool_iff in E. lra.
Qed.

Lemma Qltb_false (a b : Q) : Qltb a b = false <-> b <= a.
Proof.
  unfold Qltb. rewrite negb_false_iff. apply Qle_bool_iff.
Qed.

(** ** [types.ts] *)

Module Types.

Inductive ShapeKind : Set := rectangle | circle | outline.

Definition ShapeKind_eqb (a b : ShapeKind) : bool :=
  match a, b with
  | rectangle, rectangle | circle, circle | outline, outline => true
  | _, _ => false
  end.

Lemma ShapeKind_eqb_eq (a b : ShapeKind) : ShapeKind_eqb a b = true <-> a = b.
Proof. destruct a, b; simpl; split; intro H; congruence. Qed.

Record CutterSettings : Set := mkSettings {
  width : Q;
  height : Q;
  baseThickness : Q;
  detailHeight : Q;
  invert : bool;
  threshold : Q;
  smoothing : Q;
  shape : ShapeKind;
  frameThickness : Q;
  frameHeight : Q
}.

(** The object spread [{...settings, shape: k}]. *)
Definition withShape (s : CutterSettings) (k : ShapeKind) : CutterSettings :=
  {| width := width s; height := height s;
     baseThickness := baseThickness s; detailHeight := detailHeight s;
     invert := invert s; threshold := threshold s; smoothing := smoothing s;
     shape := k;
     frameThickness := frameThickness s; frameHeight := frameHeight s |}.

End Types.

(** ** The part of three.js the source calls *)

Module Three.

Record Vector2 : Set := V2 { px : Q; py : Q }.
Record Vector3 : Set := V3 { vx : Q; vy : Q; vz : Q }.

(** [Vector2.equals]: both coordinates are the same number. *)
Definition equals (a b : Vector2) : bool :=
  Qeq_bool (px a) (px b) && Qeq_bool (py a) (py b).

(** Samples of the circle: [cosTurn u] and [sinTurn u] stand for the
    numbers [Math.cos] and [Math.sin] return at the angle [u * 2 * PI]. *)
Class Trig : Type := { cosTurn : Q -> Q; sinTurn : Q -> Q }.

(** A path is known by what [getPoints()] returns for it: a polyline (the
    [moveTo]/[lineTo] calls, the constructor [new Shape(points)], or the
    sampled curves of a traced shape), or one [absarc] over the full turn
    from [0] to [2 * PI]. *)
Inductive Path : Set :=
| Polyline (pts : list Vector2)
| AbsArc (cx cy radius : Q) (clockwise : bool).

Record Shape : Set := mkShape { contour : Path; holes : list Path }.

(** [getPoints()] with the default 12 divisions: an arc is sampled at
    [2 * 12 + 1] points, clockwise arcs running through negative angles. *)
Definition arcDivisions : nat := 24.

Definition arcPoint `{Trig} (cx cy radius : Q) (clockwise : bool) (i : nat)
  : Vector2 :=
  let t := inject_Z (Z.of_nat i) / inject_Z (Z.of_nat arcDivisions) in
  let u := if clockwise then - t else t in
  V2 (cx + radius * cosTurn u) (cy + radius * sinTurn u).

Definition getPoints `{Trig} (p : Path) : list Vector2 :=
  match p with
  | Polyline pts => pts
  | AbsArc cx cy radius clockwise =>
      map (arcPoint cx cy radius clockwise) (seq 0 (S arcDivisions))
  end.

(** [ShapeUtils.area]: the signed shoelace sum over the closed contour,
    [p] starting at the last point. *)
Fixpoint areaLoop (p : Vector2) (contour : list Vector2) (a : Q) : Q :=
  match contour with
  | [] => a
  | q :: rest => areaLoop q rest (a + (px p * py q - px q * py p))
  end.

Definition area (contour : list Vector2) : Q :=
  areaLoop (last contour (V2 0 0)) contour 0 * (1 # 2).

(** A geometry is the primitive it was constructed as, followed by the
    in-place transformations applied to it since. *)
Inductive BufferGeometry : Set :=
| EmptyGeometry
| ExtrudeGeometry (shapes : list Shape) (depth : Q)
| BoxGeometry (w h d : Q)
| CylinderGeometry (radiusTop radiusBottom h : Q) (radialSegments : nat)
| translate (dx dy dz : Q) (g : BufferGeometry)
| scale (sx sy sz : Q) (g : BufferGeometry)
| rotateX_halfPi (g : BufferGeometry).

Definition lift (zc : Q) (p : Vector2) : Vector3 := V3 (px p) (py p) zc.

(** The vertices an extrusion with [steps: 1] and no bevel places for one
    shape: contour and holes at [z = 0] and again at [z = depth]. *)
Definition extrudeShape `{Trig} (depth : Q) (s : Shape) : list Vector3 :=
  let vertices := getPoints (contour s) ++ flat_map getPoints (holes s) in
  map (lift 0) vertices ++ map (lift depth) vertices.

Definition boxCorners (w h d : Q) : list Vector3 :=
  [ V3 (w / 2) (h / 2) (d / 2);     V3 (w / 2) (h / 2) (- (d / 2));
    V3 (w / 2) (- (h / 2)) (d / 2); V3 (w / 2) (- (h / 2)) (- (d / 2));
    V3 (- (w / 2)) (h / 2) (d / 2);     V3 (- (w / 2)) (h / 2) (- (d / 2));
    V3 (- (w / 2)) (- (h / 2)) (d / 2); V3 (- (w / 2)) (- (h / 2)) (- (d / 2)) ].

(** One ring of a cylinder at height [yc]: [radialSegments + 1] vertices
    [(r sin, yc, r cos)]. *)
Definition ring `{Trig} (radius yc : Q) (radialSegments : nat) : list Vector3 :=
  map (fun i =>
         let u := inject_Z (Z.of_nat i) / inject_Z (Z.of_nat radialSegments) in
         V3 (radius * sinTurn u) yc (radius * cosTurn u))
      (seq 0 (S radialSegments)).

(** A cap is generated only for a positive radius: its centre vertices and
    its ring. *)
Definition cap `{Trig} (radius yc : Q) (radialSegments : nat) : list Vector3 :=
  if Qltb 0 radius
  then repeat (V3 0 yc 0) radialSegments ++ ring radius yc radialSegments
  else [].

Definition cylinderVertices `{Trig} (rt rb h : Q) (n : nat) : list Vector3 :=
  ring rt (h / 2) n ++ ring rb (- h + h / 2) n
  ++ cap rt (h / 2) n ++ cap rb (- (h / 2)) n.

(** The position attribute, as a collection: the order of the vertices and
    how often the triangulation repeats one are not modelled. *)
Fixpoint positions `{Trig} (g : BufferGeometry) : list Vector3 :=
  match g with
  | EmptyGeometry => []
  | ExtrudeGeometry shapes depth => flat_map (extrudeShape depth) shapes
  | BoxGeometry w h d => boxCorners w h d
  | CylinderGeometry rt rb h n => cylinderVertices rt rb h n
  | translate dx dy dz g' =>
      map (fun v => V3 (vx v + dx) (vy v + dy) (vz v + dz)) (positions g')
  | scale sx sy sz g' =>
      map (fun v => V3 (vx v * sx) (vy v * sy) (vz v * sz)) (positions g')
  | rotateX_halfPi g' =>
      map (fun v => V3 (vx v) (- vz v) (vy v)) (positions g')
  end.

(** Smallest and largest of a non-empty run of numbers. *)
Definition lowest (a : Q) (l : list Q) : Q := fold_left Qmin l a.
Definition highest (a : Q) (l : list Q) : Q := fold_left Qmax l a.

Definition extent (l : list Q) : option (Q * Q) :=
  match l with
  | [] => None
  | a :: rest => Some (lowest a rest, highest a rest)
  end.

Record Box3 : Set := mkBox3 { bmin : Vector3; bmax : Vector3 }.

(** [computeBoundingBox]: [None] is the empty box three.js leaves for a
    geometry without vertices (corners [+Infinity] and [-Infinity]). *)
Definition computeBoundingBox `{Trig} (g : BufferGeometry) : option Box3 :=
  match positions g with
  | [] => None
  | v :: rest =>
      Some {| bmin := V3 (lowest (vx v) (map vx rest))
                         (lowest (vy v) (map vy rest))
                         (lowest (vz v) (map vz rest));
              bmax := V3 (highest (vx v) (map vx rest))
                         (highest (vy v) (map vy rest))
                         (highest (vz v) (map vz rest)) |}
  end.

(** [Box3.getCenter] of a non-empty box. *)
Definition getCenter (b : Box3) : Vector3 :=
  V3 ((vx (bmin b) + vx (bmax b)) * (1 # 2))
     ((vy (bmin b) + vy (bmax b)) * (1 # 2))
     ((vz (bmin b) + vz (bmax b)) * (1 # 2)).

End Three.

(** ** [utils/meshGenerator] *)

Module MeshGenerator.
Import Types Three.

(** *** Pixels and the canvas *)

(** One RGBA entry of a [Uint8ClampedArray]. *)
Record Pixel : Set := mkPixel { red : Z; green : Z; blue : Z; alpha : Z }.

Record ImageData : Set :=
  mkImageData { imageWidth : nat; imageHeight : nat; data : list Pixel }.

Definition white : Pixel := mkPixel 255 255 255 255.

(** What the 2D canvas computes and the source only calls.
    [blend s d] is a translucent pixel [s] composited over [d]; over an
    opaque pixel the result is opaque.  [shadowedPixel dest src i] is pixel
    [i] of [dest] once the blurred black shadow of [src] has been composited
    over it. *)
Class Canvas2D : Type := {
  blend : Pixel -> Pixel -> Pixel;
  blend_opaque : forall s d, alpha d = 255%Z -> alpha (blend s d) = 255%Z;
  shadowedPixel : list Pixel -> list Pixel -> nat -> Pixel
}.

Definition opaque (p : Pixel) : Prop := alpha p = 255%Z.

(** Source-over compositing: an opaque pixel replaces what is under it. *)
Definition sourceOver `{Canvas2D} (s d : Pixel) : Pixel :=
  if (alpha s =? 255)%Z then s else blend s d.

(** [fillRect] in white followed by [drawImage(img, ...)] and
    [getImageData]: the resampled image over an opaque white canvas. *)
Definition drawOnWhite `{Canvas2D} (img : list Pixel) : list Pixel :=
  map (fun p => sourceOver p white) img.

(** [drawImage(canvas, 0, 0)] with [shadowBlur] set: first the shadow of
    the source goes over the destination, then the source itself. *)
Fixpoint drawRow `{Canvas2D} (src dest : list Pixel) (i : nat) (row : list Pixel)
  : list Pixel :=
  match row with
  | [] => []
  | p :: rest => sourceOver p (shadowedPixel dest src i) :: drawRow src dest (S i) rest
  end.

Definition drawImageShadowed `{Canvas2D} (src dest : list Pixel) : list Pixel :=
  drawRow src dest 0 src.

(** [(data[i] + data[i + 1] + data[i + 2]) / 3] *)
Definition avg (p : Pixel) : Q := inject_Z (red p + green p + blue p) / 3.

Definition grey (val : Z) (a : Z) : Pixel := mkPixel val val val a.

(** Pass 1 of the silhouette: content becomes solid black; the alpha entry
    is left as it is. *)
Definition contentPass (d : list Pixel) : list Pixel :=
  map (fun p =>
         let isContent := Qltb (avg p) 200 in
         let val := if isContent then 0%Z else 255%Z in
         grey val (alpha p)) d.

(** Pass 2: a white canvas of the same size, the mask drawn three times
    with the shadow blur on. *)
Definition dilationPass `{Canvas2D} (canvas : list Pixel) : list Pixel :=
  let temp := map (fun _ => white) canvas in
  let temp := drawImageShadowed canvas temp in
  let temp := drawImageShadowed canvas temp in
  drawImageShadowed canvas temp.

Definition cutThreshold : Q := 240.

(** Pass 3: the cutter threshold. *)
Definition cutterPass (bData : list Pixel) : list Pixel :=
  map (fun p =>
         let isInsideBubble := Qltb (avg p) cutThreshold in
         let val := if isInsideBubble then 0%Z else 255%Z in
         grey val 255) bData.

(** The thresholding loop of the relief. *)
Definition isDark (t : Q) (p : Pixel) : bool := Qltb (avg p) t.

Definition isSolid (inv : bool) (t : Q) (p : Pixel) : bool :=
  if inv then negb (isDark t p) else isDark t p.

Definition thresholdPixel (settings : CutterSettings) (p : Pixel) : Pixel :=
  let val := if isSolid (invert settings) (threshold settings) p
             then 0%Z else 255%Z in
  grey val 255.

Definition thresholdPass (settings : CutterSettings) (d : list Pixel)
  : list Pixel :=
  map (thresholdPixel settings) d.

(** *** Tracing *)

Record TraceOptions : Set := mkTraceOptions {
  ltres : Q; qtres : Q; pathomit : nat; blurradius : nat; blurdelta : nat
}.

Definition silhouetteTrace : TraceOptions := mkTraceOptions 2 2 250 5 10.
Definition reliefTrace : TraceOptions := mkTraceOptions 1 1 50 4 15.

(** [svgToShapes(ImageTracer.imagedataToSVG(imageData, options))] *)
Class Tracer : Type := {
  imagedataToShapes : TraceOptions -> ImageData -> list Shape
}.

(** What the first lines of both generators find: the image fails to
    decode (the promise of [loadImage] rejects), the canvas gives no 2D
    context, or the image is there, resampled to the canvas size. *)
Inductive Source : Set :=
| DecodeFails
| NoContext
| Resampled (img : ImageData).

Inductive Promise (A : Type) : Type :=
| Resolved (a : A)
| Rejected.
Arguments Resolved {A} a.
Arguments Rejected {A}.

(** *** [generateSilhouetteShape] *)

Definition shapeArea `{Trig} (s : Shape) : Q :=
  Qabs (area (getPoints (contour s))).

(** One turn of the [forEach] over the traced shapes. *)
Definition keepLarger `{Trig} (st : Shape * Q) (s : Shape) : Shape * Q :=
  let '(bestShape, maxArea) := st in
  let a := shapeArea s in
  if Qltb maxArea a then (s, a) else (bestShape, maxArea).

Definition largestShape `{Trig} (shapes : list Shape) : option Shape :=
  match shapes with
  | [] => None
  | first :: _ => Some (fst (fold_left keepLarger shapes (first, 0)))
  end.

Definition silhouetteMask `{Canvas2D} (img : list Pixel) : list Pixel :=
  cutterPass (dilationPass (contentPass (drawOnWhite img))).

Definition generateSilhouetteShape `{Trig} `{Canvas2D} `{Tracer}
  (src : Source) (settings : CutterSettings) : Promise (option Shape) :=
  match src with
  | DecodeFails => Rejected
  | NoContext => Resolved None
  | Resampled img =>
      let bubbleData :=
        mkImageData (imageWidth img) (imageHeight img)
                    (silhouetteMask (data img)) in
      Resolved (largestShape (imagedataToShapes silhouetteTrace bubbleData))
  end.

(** *** [createBasePlate] *)

Definition createBasePlate (settings : CutterSettings)
  (outlineShape : option Shape) : BufferGeometry :=
  let thickness := baseThickness settings in
  match shape settings, outlineShape with
  | outline, Some s =>
      translate 0 0 (- thickness) (ExtrudeGeometry [s] thickness)
  | rectangle, _ =>
      translate 0 0 (- thickness / 2)
        (BoxGeometry (width settings) (height settings) thickness)
  | _, _ =>
      let radius := width settings / 2 in
      translate 0 0 (- thickness / 2)
        (rotateX_halfPi (CylinderGeometry radius radius thickness 64))
  end.

(** *** [createCutterFrame] *)

(** [points.push(points[0])] unless the contour is empty or closed. *)
Definition closePoints (points : list Vector2) : list Vector2 :=
  match points with
  | [] => []
  | first :: _ =>
      if negb (equals first (last points first))
      then points ++ [first] else points
  end.

Definition holeScale (settings : CutterSettings) : Q :=
  Qmax (1 # 2) (1 - 2 * frameThickness settings / width settings).

(** The vertex mean the two [forEach] sums and divisions compute. *)
Definition centroid (points : list Vector2) : Vector2 :=
  let n := inject_Z (Z.of_nat (length points)) in
  V2 (fold_left (fun c p => c + px p) points 0 / n)
     (fold_left (fun c p => c + py p) points 0 / n).

Definition towards (c : Vector2) (k : Q) (p : Vector2) : Vector2 :=
  V2 (px c + (px p - px c) * k) (py c + (py p - py c) * k).

Definition holePoints (settings : CutterSettings) (points : list Vector2)
  : list Vector2 :=
  map (towards (centroid points) (holeScale settings)) points.

Definition outlineWallShape `{Trig} (settings : CutterSettings) (s : Shape)
  : Shape :=
  let points := closePoints (getPoints (contour s)) in
  mkShape (Polyline points) [Polyline (holePoints settings points)].

Definition rectangleWallShape (w h t : Q) : Shape :=
  mkShape
    (Polyline [ V2 (- w - t) (- h - t); V2 (w + t) (- h - t);
                V2 (w + t) (h + t); V2 (- w - t) (h + t);
                V2 (- w - t) (- h - t) ])
    [ Polyline [ V2 (- w) (- h); V2 (- w) h; V2 w h; V2 w (- h);
                 V2 (- w) (- h) ] ].

Definition circleWallShape (r t : Q) : Shape :=
  mkShape (AbsArc 0 0 (r + t) false) [ AbsArc 0 0 r true ].

Definition createCutterFrame `{Trig} (settings : CutterSettings)
  (outlineShape : option Shape) : BufferGeometry :=
  let totalHeight := frameHeight settings + baseThickness settings in
  match shape settings, outlineShape with
  | outline, Some s =>
      translate 0 0 (- baseThickness settings)
        (ExtrudeGeometry [outlineWallShape settings s] totalHeight)
  | k, _ =>
      let w := width settings / 2 in
      let h := height settings / 2 in
      let t := frameThickness settings in
      let profile :=
        match k with
        | rectangle => rectangleWallShape w h t
        | _ => circleWallShape w t
        end in
      translate 0 0 (- baseThickness settings)
        (ExtrudeGeometry [profile] totalHeight)
  end.

(** *** [createStampGeometry] *)

Definition createStampGeometry `{Canvas2D} `{Tracer}
  (src : Source) (settings : CutterSettings) : Promise BufferGeometry :=
  match src with
  | DecodeFails => Rejected
  | NoContext => Resolved EmptyGeometry
  | Resampled img =>
      let imageData :=
        mkImageData (imageWidth img) (imageHeight img)
                    (thresholdPass settings (drawOnWhite (data img))) in
      match imagedataToShapes reliefTrace imageData with
      | [] => Resolved EmptyGeometry
      | shapes =>
          Resolved (scale 1 (-1) 1
                      (ExtrudeGeometry shapes (detailHeight settings)))
      end
  end.

End MeshGenerator.

(** ** The layout step of [components/Viewer3D.tsx] *)

Module Viewer3D.
Import Types Three MeshGenerator.

(** [flipGeometryY] is imported from [utils/meshGenerator], but its
    definition is not among the sources at hand: the layout takes it as it
    comes. *)
Class Flip : Type := { flipGeometryY : BufferGeometry -> BufferGeometry }.

(** Modelled from the spec: the definition of [flipGeometryY] is missing.
    The specification has the layout step reconcile the Y-down tracing
    frame with the Y-up solid frame "by flipping the Y coordinate of wall
    and base geometry once": every vertex keeps [x] and [z] and has [y]
    negated, which is what [geometry.scale(1, -1, 1)] does to the relief. *)
Definition negateY : Flip :=
  {| flipGeometryY := fun g => scale 1 (-1) 1 g |}.

(** What [generate] hands to the three [set...Geometry] calls. *)
Record Assembly : Set := mkAssembly {
  stamp : BufferGeometry;
  frame : BufferGeometry;
  base : BufferGeometry;
  appliedScale : Q
}.

(** [boundingBox.max.x - boundingBox.min.x] and the same along [y]. *)
Definition boxWidth (b : Box3) : Q := vx (bmax b) - vx (bmin b).
Definition boxHeight (b : Box3) : Q := vy (bmax b) - vy (bmin b).

(** The footprint scale of the outline branch: the requested width over the
    measured one, when the measured one is positive.  An empty box has
    width [-Infinity], which is not positive. *)
Definition footprintScale `{Trig} (settings : CutterSettings)
  (frameGeo : BufferGeometry) : Q :=
  match computeBoundingBox frameGeo with
  | Some b =>
      let frameW := boxWidth b in
      if Qltb 0 frameW then width settings / frameW else 1
  | None => 1
  end.

(** The fit of the relief into a rectangle or circle footprint.  For a
    relief without vertices the measured extents are [-Infinity], both
    quotients are zeros, and the centre of the empty box is the origin. *)
Definition fitScale `{Trig} (settings : CutterSettings)
  (stampGeo : BufferGeometry) : Q :=
  match computeBoundingBox stampGeo with
  | Some stampBBox =>
      let stampW := boxWidth stampBBox in
      let stampH := boxHeight stampBBox in
      let padding := width settings * (5 # 100) in
      let availableW := width settings - padding * 2 in
      let availableH := height settings - padding * 2 in
      let scaleX := availableW / stampW in
      let scaleY := availableH / stampH in
      Qmin scaleX scaleY
  | None => 0
  end.

Definition recentre `{Trig} (g : BufferGeometry) : BufferGeometry :=
  let center :=
    match computeBoundingBox g with
    | Some b => getCenter b
    | None => V3 0 0 0
    end in
  translate (- vx center) (- vy center) 0 g.

Definition fitStamp `{Trig} (settings : CutterSettings)
  (stampGeo : BufferGeometry) : BufferGeometry :=
  let f := fitScale settings stampGeo in
  recentre (scale f f 1 stampGeo).

(** [if (finalGroupScale !== 1) { ... }] *)
Definition applyGroupScale (finalGroupScale : Q) (a : Assembly) : Assembly :=
  if Qeq_bool finalGroupScale 1
  then a
  else mkAssembly (scale finalGroupScale finalGroupScale 1 (stamp a))
                  (scale finalGroupScale finalGroupScale 1 (frame a))
                  (scale finalGroupScale finalGroupScale 1 (base a))
                  (appliedScale a).

(** The body of [generate] once both awaited generators have resolved:
    [silhouetteShape] is only looked at when the shape is [outline]. *)
Definition layout `{Trig} `{Flip} (settings : CutterSettings)
  (stampGeo : BufferGeometry) (silhouetteShape : option Shape) : Assembly :=
  match shape settings with
  | outline =>
      match silhouetteShape with
      | Some s =>
          let frameGeo := flipGeometryY (createCutterFrame settings (Some s)) in
          let baseGeo := flipGeometryY (createBasePlate settings (Some s)) in
          let finalGroupScale := footprintScale settings frameGeo in
          applyGroupScale finalGroupScale
            (mkAssembly stampGeo frameGeo baseGeo finalGroupScale)
      | None =>
          let frameGeo := createCutterFrame (withShape settings rectangle) None in
          let baseGeo := createBasePlate (withShape settings rectangle) None in
          applyGroupScale 1 (mkAssembly stampGeo frameGeo baseGeo 1)
      end
  | _ =>
      let frameGeo := createCutterFrame settings None in
      let baseGeo := createBasePlate settings None in
      applyGroupScale 1
        (mkAssembly (fitStamp settings stampGeo) frameGeo baseGeo 1)
  end.

(** [generate]: a rejected promise is caught, logged, and leaves the three
    geometries unset ([None]). *)
Definition generate `{Trig} `{Flip} `{Canvas2D} `{Tracer}
  (src : Source) (settings : CutterSettings) : option Assembly :=
  match createStampGeometry src settings with
  | Rejected => None
  | Resolved stampGeo =>
      match shape settings with
      | outline =>
          match generateSilhouetteShape src settings with
          | Rejected => None
          | Resolved silhouetteShape =>
              Some (layout settings stampGeo silhouetteShape)
          end
      | _ => Some (layout settings stampGeo None)
      end
  end.

(** The largest extent of the whole assembly in the plane of the plate. *)
Definition assemblyPositions `{Trig} (a : Assembly) : list Vector3 :=
  positions (base a) ++ positions (stamp a) ++ positions (frame a).

Definition span (l : list Q) : option Q :=
  match extent l with
  | Some (lo, hi) => Some (hi - lo)
  | None => None
  end.

Definition maxPlanarDimension `{Trig} (a : Assembly) : option Q :=
  match span (map vx (assemblyPositions a)),
        span (map vy (assemblyPositions a)) with
  | Some w, Some h => Some (Qmax w h)
  | _, _ => None
  end.

End Viewer3D.

(** ** Vocabulary of the statements *)

Module Vocabulary.
Import Types Three.

(** The settings [s] with the invert flag set to [b]. *)
Definition withInvert (s : CutterSettings) (b : bool) : CutterSettings :=
  {| width := width s; height := height s;
     baseThickness := baseThickness s; detailHeight := detailHeight s;
     invert := b; threshold := threshold s; smoothing := smoothing s;
     shape := shape s;
     frameThickness := frameThickness s; frameHeight := frameHeight s |}.

(** The vertices of [l] lie on the planes [z = a] and [z = b], and on
    both. *)
Definition onLevels (l : list Vector3) (a b : Q) : Prop :=
  (forall v, In v l -> vz v == a \/ vz v == b)
  /\ (exists v, In v l /\ vz v == a)
  /\ (exists v, In v l /\ vz v == b).

(** The silhouette handed to a builder has points. *)
Definition traced `{Trig} (settings : CutterSettings) (o : option Shape) : Prop :=
  forall s, shape settings = outline -> o = Some s ->
            getPoints (contour s) <> [].

(** Two vertices with the same coordinates as numbers. *)
Definition sameVertex (v w : Vector3) : Prop :=
  vx v == vx w /\ vy v == vy w /\ vz v == vz w.

Definition samePositions (l l' : list Vector3) : Prop := Forall2 sameVertex l l'.

(** The three colour entries of a pixel are bytes, as every entry of a
    [Uint8ClampedArray] is. *)
Definition byteValued (p : MeshGenerator.Pixel) : Prop :=
  (0 <= MeshGenerator.red p <= 255
   /\ 0 <= MeshGenerator.green p <= 255
   /\ 0 <= MeshGenerator.blue p <= 255)%Z.

(** The samples of the circle lie on the unit circle up to [eps] in the
    square of their distance from the origin. *)
Definition nearUnitCircle (T : Trig) (eps : Q) : Prop :=
  forall u,
    1 - eps <= cosTurn u * cosTurn u + sinTurn u * sinTurn u <= 1 + eps.

(** The square of the distance [d2] is that of the radius [r], up to the
    factor [eps]. *)
Definition atRadius (r eps d2 : Q) : Prop :=
  r * r * (1 - eps) <= d2 <= r * r * (1 + eps).

(** The square of the distance of a vertex from the build axis. *)
Definition axisDistance2 (v : Vector3) : Q := vx v * vx v + vy v * vy v.

(** The running sum of one coordinate and the number of points, as the
    two [forEach] sums and [points.length] of [createCutterFrame] have
    them. *)
Definition total (f : Vector2 -> Q) (l : list Vector2) (a : Q) : Q :=
  fold_left (fun c p => c + f p) l a.

Definition count (l : list Vector2) : Q := inject_Z (Z.of_nat (length l)).

End Vocabulary.

(** ** Concrete inputs *)

Module Samples.
Import Types Three MeshGenerator Viewer3D.

(** The defaults of the control surface. *)
Definition defaults : CutterSettings :=
  {| width := 90; height := 90; baseThickness := 2; detailHeight := 35 # 10;
     invert := false; threshold := 160; smoothing := 0; shape := outline;
     frameThickness := 2; frameHeight := 8 |}.

(** A sampling of the circle by rational points of it:
    [((1 - u u) / (1 + u u), 2 u / (1 + u u))]. *)
Definition rationalTrig : Trig :=
  {| cosTurn := fun u => (1 - u * u) / (1 + u * u);
     sinTurn := fun u => 2 * u / (1 + u * u) |}.

(** A sampling of the circle that stays at angle zero. *)
Definition flatTrig : Trig := {| cosTurn := fun _ => 1; sinTurn := fun _ => 0 |}.

(** A canvas whose shadow leaves the destination as it is. *)
Definition plainCanvas : Canvas2D :=
  {| blend := fun _ d => d;
     blend_opaque := fun _ _ Hd => Hd;
     shadowedPixel := fun dest _ i => nth i dest white |}.

(** The defaults with a relief of no height. *)
Definition flatRelief : CutterSettings :=
  {| width := 90; height := 90; baseThickness := 2; detailHeight := 0;
     invert := false; threshold := 160; smoothing := 0; shape := outline;
     frameThickness := 2; frameHeight := 8 |}.

Definition unitSquare : Shape :=
  mkShape (Polyline [V2 0 0; V2 1 0; V2 1 1; V2 0 1]) [].

(** A silhouette twice as tall as wide. *)
Definition tallBox : Shape :=
  mkShape (Polyline [V2 0 0; V2 1 0; V2 1 2; V2 0 2]) [].

(** A silhouette without width. *)
Definition needle : Shape :=
  mkShape (Polyline [V2 0 0; V2 0 1]) [].

(** A rectangle footprint twice as high as wide. *)
Definition narrow : CutterSettings :=
  {| width := 50; height := 100; baseThickness := 2; detailHeight := 35 # 10;
     invert := false; threshold := 160; smoothing := 0; shape := rectangle;
     frameThickness := 2; frameHeight := 8 |}.

(** A contour one unit wide and a hundred high, and a relief over it. *)
Definition thinShape : Shape :=
  mkShape (Polyline [V2 0 0; V2 1 0; V2 1 100; V2 0 100]) [].

Definition tallRelief : BufferGeometry := ExtrudeGeometry [thinShape] 1.

(** Tracers that find the tall box, or the thin shape, in every image. *)
Definition tallTracer : Tracer :=
  {| imagedataToShapes := fun _ _ => [tallBox] |}.

Definition thinTracer : Tracer :=
  {| imagedataToShapes := fun _ _ => [thinShape] |}.

Definition squareTracer : Tracer :=
  {| imagedataToShapes := fun _ _ => [unitSquare] |}.

Definition blankTracer : Tracer :=
  {| imagedataToShapes := fun _ _ => [] |}.

Definition black : Pixel := mkPixel 0 0 0 255.

Definition twoPixels : ImageData := mkImageData 2 1 [black; white].

End Samples.

(** ** [services/geminiService] *)

Module GeminiService.

Inductive AspectRatio : Set :=
| ratio_1_1 | ratio_3_4 | ratio_4_3 | ratio_16_9 | ratio_9_16.

(** [getAspectRatio]; the decimal literals are taken as the rationals they
    denote. *)
Definition getAspectRatio (width height : Q) : AspectRatio :=
  let ratio := width / height in
  if Qle_bool (15 # 10) ratio then ratio_16_9
  else if Qle_bool ratio (6 # 10) then ratio_9_16
  else if Qltb (11 # 10) ratio then ratio_4_3
  else if Qltb ratio (9 # 10) then ratio_3_4
  else ratio_1_1.

Section Strings.
Import Ascii String.
Local Open Scope string_scope.

(** [s.includes(c)] for a one-character [c]. *)
Fixpoint includes (c : ascii) (s : string) : bool :=
  match s with
  | EmptyString => false
  | String a rest => Ascii.eqb a c || includes c rest
  end.

(** [s.split(c)] for a one-character [c]: the pieces between the
    occurrences of [c], at least one piece. *)
Fixpoint split (c : ascii) (s : string) : list string :=
  match s with
  | EmptyString => [EmptyString]
  | String a rest =>
      if Ascii.eqb a c then EmptyString :: split c rest
      else match split c rest with
           | piece :: pieces => String a piece :: pieces
           | [] => [String a EmptyString]
           end
  end.

Definition comma : ascii := ","%char.

(** [img.includes(',') ? img.split(',')[1] : img], as both
    [generateStencilImage] and [editStencilImage] take the base64 payload
    out of a data URL.  A missing second piece would be [undefined]; with
    a comma in the string there always is one. *)
Definition base64Data (image : string) : string :=
  if includes comma image then nth 1 (split comma image) EmptyString
  else image.

(** [`data:image/png;base64,${data}`] *)
Definition dataUrl (payload : string) : string :=
  "data:image/png;base64," ++ payload.

End Strings.

End GeminiService.

(** ** The state handlers of [App.tsx] *)

Module App.
Import Types.

Definition string : Set := String.string.

Inductive DesignCategory : Set := portrait | typography.
Inductive Role : Set := user | model.
Inductive Status : Set := idle | generating | done | error.

Record ChatMessage : Set := mkChatMessage {
  messageId : string; role : Role; text : string; timestamp : Z
}.

Record DesignAsset : Set := mkDesignAsset {
  id : string;
  title : string;
  visualPrompt : string;
  category : DesignCategory;
  imageUrl : option string;
  referenceImage : option string;
  status : Status;
  errorMessage : option string;
  chatHistory : list ChatMessage
}.

(** [Partial<DesignAsset>]: a key may be absent ([None]); a present key
    of an optional field may carry [undefined]. *)
Record Updates : Set := mkUpdates {
  newId : option string;
  newTitle : option string;
  newVisualPrompt : option string;
  newCategory : option DesignCategory;
  newImageUrl : option (option string);
  newReferenceImage : option (option string);
  newStatus : option Status;
  newErrorMessage : option (option string);
  newChatHistory : option (list ChatMessage)
}.

Definition noUpdates : Updates :=
  mkUpdates None None None None None None None None None.

Section Literals.
Import Ascii String.
Local Open Scope string_scope.

Definition failedToGenerate : string := "Failed to generate".
Definition dot : ascii := "."%char.

End Literals.

Definition orKeep {A : Type} (u : option A) (old : A) : A :=
  match u with Some v => v | None => old end.

(** The spread [{ ...d, ...updates }]. *)
Definition merge (d : DesignAsset) (updates : Updates) : DesignAsset :=
  {| id := orKeep (newId updates) (id d);
     title := orKeep (newTitle updates) (title d);
     visualPrompt := orKeep (newVisualPrompt updates) (visualPrompt d);
     category := orKeep (newCategory updates) (category d);
     imageUrl := orKeep (newImageUrl updates) (imageUrl d);
     referenceImage := orKeep (newReferenceImage updates) (referenceImage d);
     status := orKeep (newStatus updates) (status d);
     errorMessage := orKeep (newErrorMessage updates) (errorMessage d);
     chatHistory := orKeep (newChatHistory updates) (chatHistory d) |}.

(** [updateDesign]: [prev.map(d => d.id === id ? { ...d, ...updates } : d)] *)
Definition updateDesign (target : string) (updates : Updates)
  (designs : list DesignAsset) : list DesignAsset :=
  map (fun d => if String.eqb (id d) target then merge d updates else d)
      designs.

(** The list of designs and the selection. *)
Record Gallery : Set := mkGallery {
  designs : list DesignAsset;
  selectedDesignId : option string
}.

(** [removeDesign] *)
Definition removeDesign (target : string) (g : Gallery) : Gallery :=
  {| designs := filter (fun d => negb (String.eqb (id d) target)) (designs g);
     selectedDesignId :=
       match selectedDesignId g with
       | Some s => if String.eqb s target then None else Some s
       | None => None
       end |}.

(** [designs.find(d => d.id === id)] *)
Definition findDesign (target : string) (l : list DesignAsset)
  : option DesignAsset :=
  find (fun d => String.eqb (id d) target) l.

(** [handleGenerateAsset] up to its [await].  [seen] is the list of the
    render the handler was created in, which the [find] reads; [g] is the
    state the functional update and the selection are applied to.  [None]:
    the design is not found, the handler returns at once and no image is
    asked for. *)
Definition handleGenerateAsset (target : string) (seen : list DesignAsset)
  (g : Gallery) : option Gallery :=
  match findDesign target seen with
  | None => None
  | Some design =>
      Some {| designs :=
                updateDesign target
                  {| newId := None; newTitle := None;
                     newVisualPrompt := None; newCategory := None;
                     newImageUrl := None; newReferenceImage := None;
                     newStatus := Some generating;
                     newErrorMessage := Some None;
                     newChatHistory := None |}
                  (designs g);
              selectedDesignId := Some target |}
  end.

(** The rest of [handleGenerateAsset], run when [generateStencilImage] has
    resolved with a data URL ([Some url]) or thrown ([None]): [g] is the
    state at that time, whatever has happened to it since the request. *)
Definition generateAssetSettled (target : string) (result : option string)
  (g : Gallery) : Gallery :=
  {| designs :=
       match result with
       | Some url =>
           updateDesign target
             {| newId := None; newTitle := None; newVisualPrompt := None;
                newCategory := None; newImageUrl := Some (Some url);
                newReferenceImage := None; newStatus := Some done;
                newErrorMessage := None; newChatHistory := None |}
             (designs g)
       | None =>
           updateDesign target
             {| newId := None; newTitle := None; newVisualPrompt := None;
                newCategory := None; newImageUrl := None;
                newReferenceImage := None; newStatus := Some error;
                newErrorMessage := Some (Some failedToGenerate);
                newChatHistory := None |}
             (designs g)
       end;
     selectedDesignId := selectedDesignId g |}.

(** The title an uploaded file gets: [file.name.split('.')[0]]. *)
Definition titleOf (name : string) : string :=
  nth 0 (GeminiService.split dot name) String.EmptyString.

Inductive Dimension : Set := dimWidth | dimHeight | dimBoth.

(** [handleDimensionChange] *)
Definition handleDimensionChange (settings : CutterSettings)
  (dimension : Dimension) (value : Q) : CutterSettings :=
  let both :=
    {| width := value; height := value;
       baseThickness := baseThickness settings;
       detailHeight := detailHeight settings; invert := invert settings;
       threshold := threshold settings; smoothing := smoothing settings;
       shape := shape settings;
       frameThickness := frameThickness settings;
       frameHeight := frameHeight settings |} in
  match shape settings, dimension with
  | circle, _ | outline, _ | _, dimBoth => both
  | _, dimWidth =>
      {| width := value; height := height settings;
         baseThickness := baseThickness settings;
         detailHeight := detailHeight settings; invert := invert settings;
         threshold := threshold settings; smoothing := smoothing settings;
         shape := shape settings;
         frameThickness := frameThickness settings;
         frameHeight := frameHeight settings |}
  | _, dimHeight =>
      {| width := width settings; height := value;
         baseThickness := baseThickness settings;
         detailHeight := detailHeight settings; invert := invert settings;
         threshold := threshold settings; smoothing := smoothing settings;
         shape := shape settings;
         frameThickness := frameThickness settings;
         frameHeight := frameHeight settings |}
  end.

(** What the controls of the settings panel do. *)
Inductive Control : Set :=
| ChooseOutline
| ChooseRectangle
| ChooseCircle
| Slide (dimension : Dimension) (value : Q)
| SetThreshold (value : Q)
| ToggleInvert
| SetFrameHeight (value : Q)
| SetFrameThickness (value : Q)
| SetDetailHeight (value : Q).

Definition operate (s : CutterSettings) (c : Control) : CutterSettings :=
  match c with
  | ChooseOutline => withShape s outline
  | ChooseRectangle => withShape s rectangle
  | ChooseCircle =>
      {| width := width s; height := width s;
         baseThickness := baseThickness s; detailHeight := detailHeight s;
         invert := invert s; threshold := threshold s;
         smoothing := smoothing s; shape := circle;
         frameThickness := frameThickness s; frameHeight := frameHeight s |}
  | Slide dimension value => handleDimensionChange s dimension value
  | SetThreshold value =>
      {| width := width s; height := height s;
         baseThickness := baseThickness s; detailHeight := detailHeight s;
         invert := invert s; threshold := value;
         smoothing := smoothing s; shape := shape s;
         frameThickness := frameThickness s; frameHeight := frameHeight s |}
  | ToggleInvert =>
      {| width := width s; height := height s;
         baseThickness := baseThickness s; detailHeight := detailHeight s;
         invert := negb (invert s); threshold := threshold s;
         smoothing := smoothing s; shape := shape s;
         frameThickness := frameThickness s; frameHeight := frameHeight s |}
  | SetFrameHeight value =>
      {| width := width s; height := height s;
         baseThickness := baseThickness s; detailHeight := detailHeight s;
         invert := invert s; threshold := threshold s;
         smoothing := smoothing s; shape := shape s;
         frameThickness := frameThickness s; frameHeight := value |}
  | SetFrameThickness value =>
      {| width := width s; height := height s;
         baseThickness := baseThickness s; detailHeight := detailHeight s;
         invert := invert s; threshold := threshold s;
         smoothing := smoothing s; shape := shape s;
         frameThickness := value; frameHeight := frameHeight s |}
  | SetDetailHeight value =>
      {| width := width s; height := height s;
         baseThickness := baseThickness s; detailHeight := value;
         invert := invert s; threshold := threshold s;
         smoothing := smoothing s; shape := shape s;
         frameThickness := frameThickness s; frameHeight := frameHeight s |}
  end.

(** The settings the application starts with. *)
Definition initialSettings : CutterSettings :=
  {| width := 90; height := 90; baseThickness := 2; detailHeight := 35 # 10;
     invert := false; threshold := 160; smoothing := 0; shape := outline;
     frameThickness := 2; frameHeight := 8 |}.

Definition operateAll (s : CutterSettings) (cs : list Control)
  : CutterSettings :=
  fold_left operate cs s.

End App.

Module GalleryVocabulary.

(** The selection is empty or the id of a design in the list. *)
Definition selectionValid (g : App.Gallery) : Prop :=
  match App.selectedDesignId g with
  | Some s => exists d, In d (App.designs g) /\ App.id d = s
  | None => True
  end.

(** A design whose image has been asked for: marked as generating, its
    error message cleared. *)
Definition pending (d : App.DesignAsset) : App.DesignAsset :=
  App.mkDesignAsset (App.id d) (App.title d) (App.visualPrompt d)
    (App.category d) (App.imageUrl d) (App.referenceImage d) App.generating
    None (App.chatHistory d).

(** A design when the answer arrives: with the new image and marked done,
    or marked failed with the message; everything else as it then is. *)
Definition answered (d : App.DesignAsset) (result : option App.string)
  : App.DesignAsset :=
  match result with
  | Some url =>
      App.mkDesignAsset (App.id d) (App.title d) (App.visualPrompt d)
        (App.category d) (Some url) (App.referenceImage d) App.done
        (App.errorMessage d) (App.chatHistory d)
  | None =>
      App.mkDesignAsset (App.id d) (App.title d) (App.visualPrompt d)
        (App.category d) (App.imageUrl d) (App.referenceImage d) App.error
        (Some App.failedToGenerate) (App.chatHistory d)
  end.

(** Apply [f] to the designs with the id [target]. *)
Definition onDesign (target : App.string)
  (f : App.DesignAsset -> App.DesignAsset) (l : list App.DesignAsset)
  : list App.DesignAsset :=
  map (fun d => if String.eqb (App.id d) target then f d else d) l.

End GalleryVocabulary.

Import Types Three MeshGenerator Viewer3D Vocabulary GalleryVocabulary.

(** * Properties *)

(** ** Binarisation of the relief *)

Lemma isSolid_invert (t : Q) (p : Pixel) :
  isSolid true t p = negb (isSolid false t p).
Proof. reflexivity. Qed.

Lemma thresholdPixel_complement (s s' : CutterSettings) (p : Pixel) :
  threshold s = threshold s' -> invert s = negb (invert s') ->
  thresholdPixel s p = grey (255 - red (thresholdPixel s' p)) 255.
Proof.
  intros Ht Hi. unfold thresholdPixel, isSolid. rewrite Ht, Hi.
  destruct (invert s'), (isDark (threshold s') p); reflexivity.
Qed.

(** C10. With [invert] on, a pixel is solid exactly when it is background
    with [invert] off: solid iff its average is at least the threshold when
    inverted, iff it is below the threshold when not; and the thresholded
    image of one setting is the pointwise complement of the other. *)
Theorem C10_invert_is_complement :
  forall (t : Q) (p : Pixel) (s : CutterSettings) (d : list Pixel),
    isSolid true t p = negb (isSolid false t p)
    /\ (isSolid true t p = true <-> t <= avg p)
    /\ (isSolid false t p = true <-> avg p < t)
    /\ thresholdPass (withInvert s true) d
       = map (fun q => grey (255 - red q) 255)
             (thresholdPass (withInvert s false) d).
Proof.
  intros t p s d. repeat split.
  - unfold isSolid, isDark. rewrite negb_true_iff. apply Qltb_false.
  - unfold isSolid, isDark. rewrite negb_true_iff. apply Qltb_false.
  - apply Qltb_true.
  - apply Qltb_true.
  - unfold thresholdPass. rewrite map_map. apply map_ext. intro q.
    apply thresholdPixel_complement; reflexivity.
Qed.

(** ** Selection of the silhouette *)

Section Selection.
Context `{Trig}.

Lemma shapeArea_nonneg (s : Shape) : 0 <= shapeArea s.
Proof. apply Qabs_nonneg. Qed.

Lemma keepLarger_fold (l : list Shape) :
  forall (b : Shape) (m : Q),
    let r := fold_left keepLarger l (b, m) in
    (r = (b, m) /\ Forall (fun s => shapeArea s <= m) l)
    \/ (exists pre post,
           l = pre ++ fst r :: post
           /\ m < shapeArea (fst r)
           /\ Forall (fun s => shapeArea s < shapeArea (fst r)) pre
           /\ Forall (fun s => shapeArea s <= shapeArea (fst r)) post).
Proof.
  induction l as [|s t IH]; intros b m; simpl.
  - left. split; [reflexivity | constructor].
  - destruct (Qltb m (shapeArea s)) eqn:E.
    + apply Qltb_true in E.
      destruct (IH s (shapeArea s)) as [[Hr Hall] | (pre & post & Hl & Hm & Hpre & Hpost)].
      * right. exists [], t. simpl in *. rewrite Hr. simpl.
        repeat split; auto.
      * right. exists (s :: pre), post. simpl in *.
        repeat split.
        -- now rewrite Hl at 1.
        -- lra.
        -- constructor; assumption.
        -- assumption.
    + apply Qltb_false in E.
      destruct (IH b m) as [[Hr Hall] | (pre & post & Hl & Hm & Hpre & Hpost)].
      * left. simpl in *. split; [assumption | constructor; assumption].
      * right. exists (s :: pre), post. simpl in *.
        repeat split.
        -- now rewrite Hl at 1.
        -- assumption.
        -- constructor; [lra | assumption].
        -- assumption.
Qed.

End Selection.

(** C3. Of a non-empty run of traced shapes the selection returns one whose
    unsigned area no other exceeds, and the first such in traversal order:
    every shape before it is strictly smaller, every shape after it at most
    as large.  Of the empty run it returns no shape, and that is what
    [generateSilhouetteShape] resolves to. *)
Theorem C3_largest_area_first_wins :
  forall (T : Trig) (C : Canvas2D) (R : Tracer),
    largestShape [] = None
    /\ (forall first rest, exists best pre post,
           largestShape (first :: rest) = Some best
           /\ first :: rest = pre ++ best :: post
           /\ Forall (fun s => shapeArea s < shapeArea best) pre
           /\ Forall (fun s => shapeArea s <= shapeArea best) post)
    /\ (forall img settings,
           generateSilhouetteShape (Resampled img) settings
           = Resolved (largestShape
                         (imagedataToShapes silhouetteTrace
                            (mkImageData (imageWidth img) (imageHeight img)
                                         (silhouetteMask (data img)))))).
Proof.
  intros T C R. split; [reflexivity | split; [| reflexivity]].
  intros first rest. unfold largestShape.
  destruct (keepLarger_fold (first :: rest) first 0)
    as [[Hr Hall] | (pre & post & Hl & Hm & Hpre & Hpost)].
  - exists first, [], rest. rewrite Hr. simpl. repeat split; auto.
    inversion Hall as [|? ? H1 H2]; subst.
    eapply Forall_impl; [| exact H2]. simpl. intros a Ha.
    pose proof (shapeArea_nonneg first). lra.
  - eexists _, pre, post. repeat split; eauto.
Qed.

(** ** Which primitive is built *)

(** C9. With the shape [outline] and no silhouette both builders take the
    circle branch: the base is a cylinder of radius [width / 2] (diameter
    [width]) and the wall an annular profile of inner radius [width / 2]
    and outer radius [width / 2 + frameThickness], and neither is what the
    rectangle branch builds.  The rectangle branch is taken exactly when the
    shape is [rectangle]. *)
Theorem C9_outline_without_silhouette_is_circle :
  forall (T : Trig) (s : CutterSettings),
    shape s = outline ->
    createBasePlate s None
    = translate 0 0 (- baseThickness s / 2)
        (rotateX_halfPi
           (CylinderGeometry (width s / 2) (width s / 2) (baseThickness s) 64))
    /\ createCutterFrame s None
       = translate 0 0 (- baseThickness s)
           (ExtrudeGeometry
              [ mkShape (AbsArc 0 0 (width s / 2 + frameThickness s) false)
                        [ AbsArc 0 0 (width s / 2) true ] ]
              (frameHeight s + baseThickness s))
    /\ createBasePlate s None = createBasePlate (withShape s circle) None
    /\ createCutterFrame s None = createCutterFrame (withShape s circle) None
    /\ createBasePlate s None <> createBasePlate (withShape s rectangle) None
    /\ createCutterFrame s None <> createCutterFrame (withShape s rectangle) None
    /\ (forall (s' : CutterSettings) (o : option Shape),
           createBasePlate s' o
           = translate 0 0 (- baseThickness s' / 2)
               (BoxGeometry (width s') (height s') (baseThickness s'))
           <-> shape s' = rectangle)
    /\ (forall (s' : CutterSettings),
           createCutterFrame s' None
           = translate 0 0 (- baseThickness s')
               (ExtrudeGeometry
                  [ rectangleWallShape (width s' / 2) (height s' / 2)
                                       (frameThickness s') ]
                  (frameHeight s' + baseThickness s'))
           <-> shape s' = rectangle).
Proof.
  intros T s Hs.
  unfold createBasePlate, createCutterFrame, circleWallShape. simpl.
  rewrite Hs.
  repeat split; try reflexivity; try discriminate.
  - destruct (shape s'), o; simpl; intro E; try reflexivity; discriminate E.
  - intro E. rewrite E. reflexivity.
  - unfold rectangleWallShape.
    destruct (shape s'); simpl; intro E; try reflexivity; discriminate E.
  - intro E. rewrite E. reflexivity.
Qed.

(** The defaults have the shape [outline]: without a silhouette their base
    is the cylinder of radius 45. *)
Lemma C9_witness :
  createBasePlate Samples.defaults None
  = translate 0 0 (- baseThickness Samples.defaults / 2)
      (rotateX_halfPi
         (CylinderGeometry (width Samples.defaults / 2)
            (width Samples.defaults / 2) (baseThickness Samples.defaults) 64)).
Proof.
  exact (proj1 (C9_outline_without_silhouette_is_circle
                  Samples.flatTrig Samples.defaults eq_refl)).
Defined.

(** ** Expansion of the silhouette mask *)

Section Expansion.
Context `{Canvas2D}.

Lemma sourceOver_opaque (s d : Pixel) : opaque s -> sourceOver s d = s.
Proof.
  unfold opaque, sourceOver. intro Hs. rewrite Hs. reflexivity.
Qed.

Lemma drawOnWhite_opaque (img : list Pixel) : Forall opaque (drawOnWhite img).
Proof.
  unfold drawOnWhite. apply Forall_map, Forall_forall. intros p _.
  unfold opaque, sourceOver.
  destruct (alpha p =? 255)%Z eqn:E.
  - now apply Z.eqb_eq.
  - now apply blend_opaque.
Qed.

Lemma contentPass_opaque (d : list Pixel) :
  Forall opaque d -> Forall opaque (contentPass d).
Proof.
  unfold contentPass. intro Hd. apply Forall_map.
  eapply Forall_impl; [| exact Hd]. intros p Hp. exact Hp.
Qed.

(** An opaque canvas drawn with its shadow covers the shadow. *)
Lemma drawRow_opaque (src dest row : list Pixel) :
  Forall opaque row -> forall i, drawRow src dest i row = row.
Proof.
  induction 1 as [|p rest Hp _ IH]; intro i; simpl.
  - reflexivity.
  - rewrite IH, (sourceOver_opaque _ _ Hp). reflexivity.
Qed.

Lemma dilationPass_opaque (canvas : list Pixel) :
  Forall opaque canvas -> dilationPass canvas = canvas.
Proof.
  intro Hc. unfold dilationPass, drawImageShadowed.
  now rewrite !drawRow_opaque.
Qed.

Lemma cutterPass_contentPass (d : list Pixel) :
  cutterPass (contentPass d) = map (fun p => grey (red p) 255) (contentPass d).
Proof.
  unfold cutterPass, contentPass. rewrite !map_map. apply map_ext.
  intro p. simpl. destruct (Qltb (avg p) 200); reflexivity.
Qed.

Lemma silhouetteMask_keeps_mask (img : list Pixel) :
  silhouetteMask img
  = map (fun p => grey (red p) 255) (contentPass (drawOnWhite img)).
Proof.
  unfold silhouetteMask.
  rewrite dilationPass_opaque
    by (apply contentPass_opaque, drawOnWhite_opaque).
  apply cutterPass_contentPass.
Qed.

End Expansion.

(** C4. Whatever the blurred shadow adds, a pixel that is content (black)
    in the mask of pass 1 is content (black) at the same place in the mask
    that leaves the cutter threshold. *)
Theorem C4_expansion_contains_mask :
  forall (C : Canvas2D) (img : list Pixel) (i : nat) (p : Pixel),
    nth_error (contentPass (drawOnWhite img)) i = Some p ->
    red p = 0%Z ->
    exists q, nth_error (silhouetteMask img) i = Some q
              /\ red q = 0%Z /\ green q = 0%Z /\ blue q = 0%Z.
Proof.
  intros C img i p Hp Hred.
  rewrite silhouetteMask_keeps_mask.
  exists (grey (red p) 255). split.
  - exact (map_nth_error (fun p0 => grey (red p0) 255) _ _ Hp).
  - simpl. auto.
Qed.

(** A black pixel next to a white one: the black one stays content. *)
Lemma C4_witness :
  exists q, nth_error (@silhouetteMask Samples.plainCanvas
                         (data Samples.twoPixels)) 0 = Some q
            /\ red q = 0%Z /\ green q = 0%Z /\ blue q = 0%Z.
Proof.
  apply (C4_expansion_contains_mask Samples.plainCanvas
           (data Samples.twoPixels) 0 (grey 0 255)); reflexivity.
Defined.

(** ** The relief without contours *)

(** C6. When the relief trace yields no contour the stamp is the explicit
    empty geometry, the promise resolves, and [generate] completes; the
    layout leaves a stamp without vertices as it is.  When the trace
    yields contours they are extruded by [detailHeight] whatever its sign. *)
Theorem C6_empty_trace_gives_empty_mesh :
  forall (T : Trig) (F : Flip) (C : Canvas2D) (R : Tracer)
         (img : ImageData) (s : CutterSettings),
    let contours :=
      imagedataToShapes reliefTrace
        (mkImageData (imageWidth img) (imageHeight img)
                     (thresholdPass s (drawOnWhite (data img)))) in
    (contours = [] ->
       createStampGeometry (Resampled img) s = Resolved EmptyGeometry)
    /\ (contours <> [] ->
          createStampGeometry (Resampled img) s
          = Resolved (scale 1 (-1) 1 (ExtrudeGeometry contours (detailHeight s))))
    /\ (exists g, createStampGeometry (Resampled img) s = Resolved g)
    /\ generate (Resampled img) s <> None
    /\ positions EmptyGeometry = []
    /\ (forall sil, positions (stamp (layout s EmptyGeometry sil)) = []).
Proof.
  intros T F C R img s contours. unfold createStampGeometry, generate.
  fold contours. repeat split.
  - intros ->. reflexivity.
  - destruct contours; [congruence | reflexivity].
  - destruct contours; eexists; reflexivity.
  - unfold generateSilhouetteShape, createStampGeometry. fold contours.
    destruct contours, (shape s); discriminate.
  - intro sil. unfold layout, applyGroupScale.
    destruct (shape s); [| | destruct sil];
      repeat match goal with |- context [Qeq_bool ?a ?b] =>
               destruct (Qeq_bool a b) end;
      reflexivity.
Qed.

(** An image the tracer finds nothing in gives the empty geometry. *)
Lemma C6_witness :
  @createStampGeometry Samples.plainCanvas Samples.blankTracer
    (Resampled Samples.twoPixels) Samples.defaults
  = Resolved EmptyGeometry.
Proof.
  exact (proj1 (C6_empty_trace_gives_empty_mesh Samples.flatTrig negateY
                  Samples.plainCanvas Samples.blankTracer
                  Samples.twoPixels Samples.defaults) eq_refl).
Defined.

(** The relief of depth zero is extruded all the same: the traced square
    gives a geometry with vertices, not the empty one. *)
Lemma C6_counterexample :
  detailHeight Samples.flatRelief <= 0
  /\ @createStampGeometry Samples.plainCanvas Samples.squareTracer
       (Resampled Samples.twoPixels) Samples.flatRelief
     = Resolved (scale 1 (-1) 1 (ExtrudeGeometry [Samples.unitSquare] 0))
  /\ @positions Samples.flatTrig
       (scale 1 (-1) 1 (ExtrudeGeometry [Samples.unitSquare] 0)) <> []
  /\ @createStampGeometry Samples.plainCanvas Samples.squareTracer
       (Resampled Samples.twoPixels) Samples.flatRelief
     <> Resolved EmptyGeometry.
Proof.
  repeat split; try discriminate.
Qed.

(** ** Extents of runs of numbers *)

Section Extents.

Lemma lowest_compat (l : list Q) :
  forall a a', a == a' -> lowest a l == lowest a' l.
Proof.
  unfold lowest. induction l as [|x t IH]; intros a a' E; simpl.
  - exact E.
  - apply IH. now rewrite E.
Qed.

Lemma highest_compat (l : list Q) :
  forall a a', a == a' -> highest a l == highest a' l.
Proof.
  unfold highest. induction l as [|x t IH]; intros a a' E; simpl.
  - exact E.
  - apply IH. now rewrite E.
Qed.

Lemma lowest_le_start (l : list Q) : forall a, lowest a l <= a.
Proof.
  unfold lowest. induction l as [|x t IH]; intro a; simpl.
  - lra.
  - specialize (IH (Qmin a x)). pose proof (Q.le_min_l a x). lra.
Qed.

Lemma highest_ge_start (l : list Q) : forall a, a <= highest a l.
Proof.
  unfold highest. induction l as [|x t IH]; intro a; simpl.
  - lra.
  - specialize (IH (Qmax a x)). pose proof (Q.le_max_l a x). lra.
Qed.

Lemma lowest_le_each (l : list Q) :
  forall a x, In x l -> lowest a l <= x.
Proof.
  unfold lowest. induction l as [|y t IH]; intros a x Hin; simpl.
  - contradiction.
  - destruct Hin as [-> | Hin].
    + pose proof (lowest_le_start t (Qmin a x)).
      pose proof (Q.le_min_r a x). unfold lowest in *. lra.
    + now apply IH.
Qed.

Lemma highest_ge_each (l : list Q) :
  forall a x, In x l -> x <= highest a l.
Proof.
  unfold highest. induction l as [|y t IH]; intros a x Hin; simpl.
  - contradiction.
  - destruct Hin as [-> | Hin].
    + pose proof (highest_ge_start t (Qmax a x)).
      pose proof (Q.le_max_r a x). unfold highest in *. lra.
    + now apply IH.
Qed.

Lemma lowest_bounded (l : list Q) :
  forall a c, c <= a -> (forall x, In x l -> c <= x) -> c <= lowest a l.
Proof.
  unfold lowest. induction l as [|y t IH]; intros a c Ha Hl; simpl.
  - exact Ha.
  - apply IH.
    + apply Q.min_glb; [exact Ha | apply Hl; now left].
    + intros x Hx. apply Hl. now right.
Qed.

Lemma highest_bounded (l : list Q) :
  forall a c, a <= c -> (forall x, In x l -> x <= c) -> highest a l <= c.
Proof.
  unfold highest. induction l as [|y t IH]; intros a c Ha Hl; simpl.
  - exact Ha.
  - apply IH.
    + apply Q.max_lub; [exact Ha | apply Hl; now left].
    + intros x Hx. apply Hl. now right.
Qed.

(** A map that preserves the order commutes with both extremes. *)
Lemma lowest_map (f : Q -> Q) :
  Proper (Qeq ==> Qeq) f -> Proper (Qle ==> Qle) f ->
  forall l a, lowest (f a) (map f l) == f (lowest a l).
Proof.
  intros Hf Hm. unfold lowest.
  induction l as [|x t IH]; intro a; simpl.
  - reflexivity.
  - rewrite <- IH. apply lowest_compat. now apply Q.min_mono.
Qed.

Lemma highest_map (f : Q -> Q) :
  Proper (Qeq ==> Qeq) f -> Proper (Qle ==> Qle) f ->
  forall l a, highest (f a) (map f l) == f (highest a l).
Proof.
  intros Hf Hm. unfold highest.
  induction l as [|x t IH]; intro a; simpl.
  - reflexivity.
  - rewrite <- IH. apply highest_compat. now apply Q.max_mono.
Qed.

End Extents.

(** ** Bounding boxes *)

Section BoundingBoxes.
Context `{Trig}.

Lemma boundingBox_some (g : BufferGeometry) :
  positions g <> [] -> exists b, computeBoundingBox g = Some b.
Proof.
  unfold computeBoundingBox. destruct (positions g); [congruence |].
  intros _. eexists. reflexivity.
Qed.

Lemma boundingBox_extents (g : BufferGeometry) (b : Box3) :
  computeBoundingBox g = Some b ->
  extent (map vx (positions g)) = Some (vx (bmin b), vx (bmax b))
  /\ extent (map vy (positions g)) = Some (vy (bmin b), vy (bmax b))
  /\ extent (map vz (positions g)) = Some (vz (bmin b), vz (bmax b)).
Proof.
  unfold computeBoundingBox. destruct (positions g) as [|v rest]; [discriminate |].
  intro E. injection E as <-. simpl. auto.
Qed.

Lemma boundingBox_none (g : BufferGeometry) :
  computeBoundingBox g = None -> positions g = [].
Proof.
  unfold computeBoundingBox. destruct (positions g); [reflexivity | discriminate].
Qed.

End BoundingBoxes.

Lemma extent_some (l : list Q) :
  l <> [] -> exists lo hi, extent l = Some (lo, hi).
Proof. destruct l; [congruence |]. intros _. simpl. eauto. Qed.

(** Both extremes follow a map that preserves the order. *)
Lemma extent_map (f : Q -> Q) (l : list Q) (lo hi : Q) :
  Proper (Qeq ==> Qeq) f -> Proper (Qle ==> Qle) f ->
  extent l = Some (lo, hi) ->
  exists lo' hi', extent (map f l) = Some (lo', hi')
                  /\ lo' == f lo /\ hi' == f hi.
Proof.
  intros Hf Hm. destruct l as [|a t]; [discriminate |].
  simpl. intro E. injection E as <- <-.
  do 2 eexists. split; [reflexivity |].
  split; [now apply lowest_map | now apply highest_map].
Qed.

(** A run of numbers that takes two values, both of them, spans them. *)
Lemma extent_two_values (l : list Q) (a b : Q) :
  a <= b ->
  (forall x, In x l -> x == a \/ x == b) ->
  (exists x, In x l /\ x == a) ->
  (exists x, In x l /\ x == b) ->
  exists lo hi, extent l = Some (lo, hi) /\ lo == a /\ hi == b.
Proof.
  intros Hab Hall (xa & Hxa & Ea) (xb & Hxb & Eb).
  destruct l as [|x0 t]; [contradiction |].
  simpl. do 2 eexists. split; [reflexivity |].
  assert (Hlow : forall x, In x (x0 :: t) -> a <= x)
    by (intros x Hx; destruct (Hall x Hx); lra).
  assert (Hhigh : forall x, In x (x0 :: t) -> x <= b)
    by (intros x Hx; destruct (Hall x Hx); lra).
  split; apply Qle_antisym.
  - destruct Hxa as [-> | Hxa].
    + pose proof (lowest_le_start t xa). lra.
    + pose proof (lowest_le_each t x0 xa Hxa). lra.
  - apply lowest_bounded; [apply Hlow; now left |].
    intros x Hx. apply Hlow. now right.
  - apply highest_bounded; [apply Hhigh; now left |].
    intros x Hx. apply Hhigh. now right.
  - destruct Hxb as [-> | Hxb].
    + pose proof (highest_ge_start t xb). lra.
    + pose proof (highest_ge_each t x0 xb Hxb). lra.
Qed.

(** ** The build axis *)

Lemma onLevels_compat (l : list Vector3) (a b a' b' : Q) :
  a == a' -> b == b' -> onLevels l a b -> onLevels l a' b'.
Proof.
  intros Ea Eb (Hall & (va & Hva & Eva) & (vb & Hvb & Evb)).
  split; [| split].
  - intros v Hv. destruct (Hall v Hv); [left | right]; lra.
  - exists va. split; [assumption | lra].
  - exists vb. split; [assumption | lra].
Qed.

Lemma onLevels_translate (l : list Vector3) (a b dx dy dz : Q) :
  onLevels l a b ->
  onLevels (map (fun v => V3 (vx v + dx) (vy v + dy) (vz v + dz)) l)
           (a + dz) (b + dz).
Proof.
  intros (Hall & (va & Hva & Eva) & (vb & Hvb & Evb)).
  split; [| split].
  - intros v Hv. apply in_map_iff in Hv. destruct Hv as (u & <- & Hu).
    simpl. destruct (Hall u Hu); [left | right]; lra.
  - eexists. split; [apply in_map; exact Hva |]. simpl. lra.
  - eexists. split; [apply in_map; exact Hvb |]. simpl. lra.
Qed.

Lemma onLevels_extent (l : list Vector3) (a b : Q) :
  a <= b -> onLevels l a b ->
  exists lo hi, extent (map vz l) = Some (lo, hi) /\ lo == a /\ hi == b.
Proof.
  intros Hab (Hall & (va & Hva & Eva) & (vb & Hvb & Evb)).
  apply extent_two_values; [assumption | | |].
  - intros x Hx. apply in_map_iff in Hx. destruct Hx as (u & <- & Hu).
    now apply Hall.
  - exists (vz va). split; [now apply in_map | assumption].
  - exists (vz vb). split; [now apply in_map | assumption].
Qed.

Section Levels.
Context `{Trig}.

Lemma extrudeShape_levels (depth : Q) (s : Shape) :
  getPoints (contour s) <> [] -> onLevels (extrudeShape depth s) 0 depth.
Proof.
  intro Hne. unfold extrudeShape.
  destruct (getPoints (contour s)) as [|p rest] eqn:E; [congruence |].
  split; [| split].
  - intros v Hv. apply in_app_or in Hv.
    destruct Hv as [Hv | Hv]; apply in_map_iff in Hv;
      destruct Hv as (u & <- & _); simpl; [left | right]; reflexivity.
  - exists (lift 0 p). split; [| reflexivity].
    apply in_or_app. left. simpl. now left.
  - exists (lift depth p). split; [| reflexivity].
    apply in_or_app. right. simpl. now left.
Qed.

Lemma extrude_one_levels (depth : Q) (s : Shape) :
  getPoints (contour s) <> [] ->
  onLevels (positions (ExtrudeGeometry [s] depth)) 0 depth.
Proof.
  intro Hne. simpl. rewrite app_nil_r. now apply extrudeShape_levels.
Qed.

Lemma boxCorners_levels (w h d : Q) :
  onLevels (boxCorners w h d) (- (d / 2)) (d / 2).
Proof.
  split; [| split].
  - intros v Hv. simpl in Hv.
    repeat (destruct Hv as [<- | Hv]; [simpl; (left; reflexivity) || (right; reflexivity) |]).
    contradiction.
  - exists (V3 (w / 2) (h / 2) (- (d / 2))). split; [| reflexivity].
    simpl. auto.
  - exists (V3 (w / 2) (h / 2) (d / 2)). split; [| reflexivity].
    simpl. auto.
Qed.

Lemma ring_height (radius yc : Q) (n : nat) (v : Vector3) :
  In v (ring radius yc n) -> vy v = yc.
Proof.
  unfold ring. intro Hv. apply in_map_iff in Hv.
  destruct Hv as (i & <- & _). reflexivity.
Qed.

Lemma ring_first (radius yc : Q) (n : nat) :
  exists v, In v (ring radius yc n) /\ vy v = yc.
Proof.
  unfold ring. eexists. split.
  - apply in_map with (x := 0%nat). apply in_seq. lia.
  - reflexivity.
Qed.

Lemma cap_height (radius yc : Q) (n : nat) (v : Vector3) :
  In v (cap radius yc n) -> vy v = yc.
Proof.
  unfold cap. destruct (Qltb 0 radius); [| contradiction].
  intro Hv. apply in_app_or in Hv. destruct Hv as [Hv | Hv].
  - apply repeat_spec in Hv. now subst.
  - now apply ring_height in Hv.
Qed.

(** The cylinder turned onto the build axis. *)
Lemma cylinder_levels (rt rb h : Q) (n : nat) :
  onLevels (positions (rotateX_halfPi (CylinderGeometry rt rb h n)))
           (- (h / 2)) (h / 2).
Proof.
  change (positions (rotateX_halfPi (CylinderGeometry rt rb h n)))
    with (map (fun v => V3 (vx v) (- vz v) (vy v)) (cylinderVertices rt rb h n)).
  unfold cylinderVertices. split; [| split].
  - intros v Hv. apply in_map_iff in Hv. destruct Hv as (u & <- & Hu). simpl.
    repeat (apply in_app_or in Hu; destruct Hu as [Hu | Hu]).
    + apply ring_height in Hu. rewrite Hu. right. reflexivity.
    + apply ring_height in Hu. rewrite Hu. left. field.
    + apply cap_height in Hu. rewrite Hu. right. reflexivity.
    + apply cap_height in Hu. rewrite Hu. left. reflexivity.
  - destruct (ring_first rb (- h + h / 2) n) as (u & Hu & Ey).
    eexists. split.
    + apply in_map. apply in_or_app. right. apply in_or_app. left. exact Hu.
    + simpl. rewrite Ey. field.
  - destruct (ring_first rt (h / 2) n) as (u & Hu & Ey).
    eexists. split.
    + apply in_map. apply in_or_app. left. exact Hu.
    + simpl. rewrite Ey. reflexivity.
Qed.

End Levels.

Section BuildAxis.
Context `{Trig}.

Lemma levels_box (g : BufferGeometry) (a b : Q) :
  a <= b -> onLevels (positions g) a b ->
  exists bx, computeBoundingBox g = Some bx
             /\ vz (bmin bx) == a /\ vz (bmax bx) == b.
Proof.
  intros Hab Hl.
  destruct (onLevels_extent _ _ _ Hab Hl) as (lo & hi & He & Elo & Ehi).
  destruct (boundingBox_some g) as (bx & Hbx).
  { destruct Hl as (_ & (v & Hv & _) & _). intro E. rewrite E in Hv. exact Hv. }
  exists bx. split; [assumption |].
  destruct (boundingBox_extents g bx Hbx) as (_ & _ & Hz).
  rewrite Hz in He. injection He as <- <-. auto.
Qed.

Lemma closePoints_nonempty (points : list Vector2) :
  points <> [] -> closePoints points <> [].
Proof.
  destruct points as [|p t]; [congruence |]. intros _. unfold closePoints.
  destruct (negb (equals p (last (p :: t) p))); discriminate.
Qed.

Lemma arc_nonempty (cx cy radius : Q) (cw : bool) :
  getPoints (AbsArc cx cy radius cw) <> [].
Proof. discriminate. Qed.

Lemma basePlate_levels (settings : CutterSettings) (o : option Shape) :
  traced settings o ->
  onLevels (positions (createBasePlate settings o))
           (- baseThickness settings) 0.
Proof.
  intro Ht. unfold createBasePlate.
  set (t := baseThickness settings).
  assert (Hcyl : onLevels
            (positions (translate 0 0 (- t / 2)
               (rotateX_halfPi
                  (CylinderGeometry (width settings / 2) (width settings / 2) t 64))))
            (- t) 0).
  { eapply onLevels_compat;
      [| | apply onLevels_translate, cylinder_levels]; field. }
  assert (Hbox : onLevels
            (positions (translate 0 0 (- t / 2)
               (BoxGeometry (width settings) (height settings) t)))
            (- t) 0).
  { eapply onLevels_compat;
      [| | apply onLevels_translate, boxCorners_levels]; field. }
  destruct (shape settings) eqn:Es; [exact Hbox | exact Hcyl |].
  destruct o as [s|]; [| exact Hcyl].
  eapply onLevels_compat;
    [| | apply onLevels_translate, extrude_one_levels, (Ht s); auto];
    ring.
Qed.

Lemma cutterFrame_levels (settings : CutterSettings) (o : option Shape) :
  traced settings o ->
  onLevels (positions (createCutterFrame settings o))
           (- baseThickness settings) (frameHeight settings).
Proof.
  intro Ht. unfold createCutterFrame.
  assert (Hex : forall profile, getPoints (contour profile) <> [] ->
            onLevels
              (positions (translate 0 0 (- baseThickness settings)
                 (ExtrudeGeometry [profile]
                    (frameHeight settings + baseThickness settings))))
              (- baseThickness settings) (frameHeight settings)).
  { intros profile Hp.
    eapply onLevels_compat;
      [| | apply onLevels_translate, extrude_one_levels, Hp]; ring. }
  destruct (shape settings) eqn:Es.
  - apply Hex. discriminate.
  - apply Hex. apply arc_nonempty.
  - destruct o as [s|].
    + apply Hex. simpl. apply closePoints_nonempty, (Ht s); auto.
    + apply Hex. apply arc_nonempty.
Qed.

End BuildAxis.

(** C5. For every shape kind (the silhouette, where one is used, having
    points) the vertices of the base plate lie on the planes
    [z = -baseThickness] and [z = 0] and those of the wall on
    [z = -baseThickness] and [z = frameHeight], both planes being reached;
    with non-negative thicknesses the bounding boxes span exactly
    [[-baseThickness, 0]] and [[-baseThickness, frameHeight]] along the
    build axis. *)
Theorem C5_base_and_wall_share_the_build_axis :
  forall (T : Trig) (s : CutterSettings) (o : option Shape),
    traced s o ->
    onLevels (positions (createBasePlate s o)) (- baseThickness s) 0
    /\ onLevels (positions (createCutterFrame s o))
                (- baseThickness s) (frameHeight s)
    /\ (0 <= baseThickness s ->
        exists b, computeBoundingBox (createBasePlate s o) = Some b
                  /\ vz (bmin b) == - baseThickness s /\ vz (bmax b) == 0)
    /\ (0 <= frameHeight s + baseThickness s ->
        exists b, computeBoundingBox (createCutterFrame s o) = Some b
                  /\ vz (bmin b) == - baseThickness s
                  /\ vz (bmax b) == frameHeight s).
Proof.
  intros T s o Ht.
  pose proof (basePlate_levels s o Ht) as Hb.
  pose proof (cutterFrame_levels s o Ht) as Hw.
  repeat split; try (apply Hb); try (apply Hw).
  - intro Hpos. apply levels_box; [lra | exact Hb].
  - intro Hpos. apply levels_box; [lra | exact Hw].
Qed.

(** The defaults over the unit square: base in [[-2, 0]], wall in
    [[-2, 8]]. *)
Lemma C5_witness :
  (exists b, @computeBoundingBox Samples.flatTrig
               (createBasePlate Samples.defaults (Some Samples.unitSquare))
             = Some b
             /\ vz (bmin b) == - (2) /\ vz (bmax b) == 0)
  /\ (exists b, @computeBoundingBox Samples.flatTrig
                  (@createCutterFrame Samples.flatTrig Samples.defaults
                     (Some Samples.unitSquare))
                = Some b
                /\ vz (bmin b) == - (2) /\ vz (bmax b) == 8).
Proof.
  assert (Ht : @traced Samples.flatTrig Samples.defaults
                 (Some Samples.unitSquare)).
  { intros s _ E. injection E as <-. discriminate. }
  destruct (C5_base_and_wall_share_the_build_axis Samples.flatTrig
              Samples.defaults (Some Samples.unitSquare) Ht)
    as (_ & _ & Hb & Hw).
  split; [apply Hb | apply Hw]; simpl; lra.
Defined.

(** ** The hole of the outline wall *)

Section ShoelaceArea.

Lemma areaLoop_acc (l : list Vector2) :
  forall p a, areaLoop p l a == a + areaLoop p l 0.
Proof.
  induction l as [|q t IH]; intros p a; simpl.
  - ring.
  - rewrite (IH q (a + _)), (IH q (0 + _)). ring.
Qed.

Lemma last_cons_default (A : Type) (l : list A) (q d : A) :
  last (q :: l) d = last l q.
Proof.
  revert q d. induction l as [|x t IH]; intros q d; [reflexivity |].
  change (last (q :: x :: t) d) with (last (x :: t) d).
  rewrite (IH x d), (IH x q). reflexivity.
Qed.

Lemma last_map_nonempty (A B : Type) (f : A -> B) (l : list A) (q : A) (d : B) :
  last (map f (q :: l)) d = f (last (q :: l) q).
Proof.
  simpl map. rewrite !last_cons_default.
  revert q. induction l as [|x t IH]; intro q; [reflexivity |].
  simpl map. rewrite !last_cons_default. apply IH.
Qed.

(** Moving every point towards [c] by the factor [k] multiplies each cross
    product by [k * k], up to a term that telescopes along the contour. *)
Lemma areaLoop_towards (c : Vector2) (k : Q) (l : list Vector2) :
  forall p,
    areaLoop (towards c k p) (map (towards c k) l) 0
    == k * k * areaLoop p l 0
       + (k - k * k)
         * ((px c * py (last l p) - px (last l p) * py c)
            - (px c * py p - px p * py c)).
Proof.
  induction l as [|q t IH]; intro p.
  - simpl. ring.
  - rewrite last_cons_default. simpl map. simpl areaLoop.
    rewrite areaLoop_acc, (areaLoop_acc t q (0 + _)), (IH q).
    simpl. ring.
Qed.

Lemma area_towards (c : Vector2) (k : Q) (l : list Vector2) :
  area (map (towards c k) l) == k * k * area l.
Proof.
  unfold area. destruct l as [|q t].
  - simpl. ring.
  - rewrite last_map_nonempty, areaLoop_towards.
    rewrite (last_cons_default _ t q (V2 0 0)).
    rewrite (last_cons_default _ t q (last (q :: t) q)).
    rewrite (last_cons_default _ t q q).
    ring.
Qed.

Lemma closePoints_closed (points : list Vector2) (p : Vector2)
  (rest : list Vector2) :
  closePoints points = p :: rest -> equals p (last (p :: rest) p) = true.
Proof.
  destruct points as [|p0 t]; [discriminate |].
  unfold closePoints.
  destruct (equals p0 (last (p0 :: t) p0)) eqn:E; simpl negb; cbv iota.
  - intro H. injection H as <- <-. exact E.
  - intro H. change ((p0 :: t) ++ [p0]) with (p0 :: (t ++ [p0])) in H.
    injection H as <- <-.
    rewrite last_cons_default, last_last.
    unfold equals. now rewrite !Qeq_bool_refl.
Qed.

End ShoelaceArea.

(** C2. In the outline case the wall is the closed contour with one hole,
    the image of every contour point [p] under
    [centroid + (p - centroid) * s], [s = max(0.5, 1 - 2 * frameThickness /
    width)].  For a positive width [s] is at least one half, the hole has
    [s * s] times the area of the contour, and so, when [s < 1] and the
    contour encloses area, less area than the contour. *)
Theorem C2_hole_is_contour_scaled_about_centroid :
  forall (T : Trig) (s : CutterSettings) (sil : Shape),
    shape s = outline ->
    0 < width s ->
    let points := closePoints (getPoints (contour sil)) in
    let c := centroid points in
    let k := Qmax (1 # 2) (1 - 2 * frameThickness s / width s) in
    let hole :=
      map (fun p => V2 (px c + (px p - px c) * k) (py c + (py p - py c) * k))
          points in
    createCutterFrame s (Some sil)
    = translate 0 0 (- baseThickness s)
        (ExtrudeGeometry [ mkShape (Polyline points) [ Polyline hole ] ]
                         (frameHeight s + baseThickness s))
    /\ (forall p rest, points = p :: rest ->
                       equals p (last (p :: rest) p) = true)
    /\ length hole = length points
    /\ 1 # 2 <= k
    /\ area hole == k * k * area points
    /\ (k < 1 -> 0 < Qabs (area points) ->
        Qabs (area hole) < Qabs (area points)).
Proof.
  intros T s sil Hs Hw points c k hole.
  assert (Hk : 1 # 2 <= k) by apply Q.le_max_l.
  assert (Ha : area hole == k * k * area points)
    by apply (area_towards c k points).
  split; [| split; [| split; [| split; [| split]]]].
  - unfold createCutterFrame. rewrite Hs. reflexivity.
  - intros p rest E. eapply closePoints_closed. exact E.
  - apply length_map.
  - exact Hk.
  - exact Ha.
  - intros Hlt Hpos. rewrite Ha, Qabs_Qmult.
    rewrite (Qabs_pos (k * k)) by (apply Qmult_le_0_compat; lra).
    set (A := Qabs (area points)) in *.
    assert (Hkk : k * k < 1) by nra.
    nra.
Qed.

(** The defaults over the unit square: [s = 43/45], and the hole is
    smaller than the square. *)
Lemma C2_witness :
  let points := closePoints (@getPoints Samples.flatTrig
                               (contour Samples.unitSquare)) in
  Qabs (area (holePoints Samples.defaults points)) < Qabs (area points).
Proof.
  apply (C2_hole_is_contour_scaled_about_centroid Samples.flatTrig
           Samples.defaults Samples.unitSquare eq_refl);
    reflexivity.
Defined.

(** ** Scaling and moving a geometry *)

Lemma samePositions_refl (l : list Vector3) : samePositions l l.
Proof.
  induction l; constructor; [| assumption].
  repeat split; reflexivity.
Qed.

Lemma samePositions_map (f g : Vector3 -> Vector3) (l : list Vector3) :
  (forall v, sameVertex (f v) (g v)) -> samePositions (map f l) (map g l).
Proof.
  intro Hfg. induction l; simpl; constructor; auto.
Qed.

#[local] Instance times_proper (f : Q) : Proper (Qeq ==> Qeq) (fun x => x * f).
Proof. intros a b E. now rewrite E. Qed.

#[local] Instance plus_proper (d : Q) : Proper (Qeq ==> Qeq) (fun x => x + d).
Proof. intros a b E. now rewrite E. Qed.

Lemma times_monotone (f : Q) :
  0 <= f -> Proper (Qle ==> Qle) (fun x => x * f).
Proof. intros Hf a b L. now apply Qmult_le_compat_r. Qed.

Lemma plus_monotone (d : Q) : Proper (Qle ==> Qle) (fun x => x + d).
Proof. intros a b L. lra. Qed.

Section Transformations.
Context `{Trig}.

Lemma scale_keeps_unit (g : BufferGeometry) (f : Q) :
  f == 1 -> samePositions (positions g) (positions (scale f f 1 g)).
Proof.
  intro Hf. change (positions (scale f f 1 g))
    with (map (fun v => V3 (vx v * f) (vy v * f) (vz v * 1)) (positions g)).
  rewrite <- (map_id (positions g)) at 1.
  apply samePositions_map. intro v.
  repeat split; simpl; rewrite ?Hf; ring.
Qed.

(** A scale by non-negative factors multiplies the planar extents. *)
Lemma box_scale (g : BufferGeometry) (fx fy fz : Q) (b : Box3) :
  0 <= fx -> 0 <= fy ->
  computeBoundingBox g = Some b ->
  exists b', computeBoundingBox (scale fx fy fz g) = Some b'
             /\ vx (bmin b') == vx (bmin b) * fx
             /\ vx (bmax b') == vx (bmax b) * fx
             /\ vy (bmin b') == vy (bmin b) * fy
             /\ vy (bmax b') == vy (bmax b) * fy.
Proof.
  intros Hx Hy Hb.
  destruct (boundingBox_extents g b Hb) as (Ex & Ey & _).
  destruct (boundingBox_some (scale fx fy fz g)) as (b' & Hb').
  { change (positions (scale fx fy fz g))
      with (map (fun v => V3 (vx v * fx) (vy v * fy) (vz v * fz)) (positions g)).
    unfold computeBoundingBox in Hb.
    destruct (positions g); discriminate. }
  exists b'. split; [assumption |].
  destruct (boundingBox_extents _ b' Hb') as (Ex' & Ey' & _).
  change (positions (scale fx fy fz g))
    with (map (fun v => V3 (vx v * fx) (vy v * fy) (vz v * fz)) (positions g))
    in Ex', Ey'.
  rewrite map_map in Ex', Ey'. simpl in Ex', Ey'.
  rewrite <- (map_map vx (fun x => x * fx)) in Ex'.
  rewrite <- (map_map vy (fun y => y * fy)) in Ey'.
  destruct (extent_map (fun x => x * fx) _ _ _ _ (times_monotone fx Hx) Ex)
    as (lx & hx & Ex2 & Elx & Ehx).
  destruct (extent_map (fun y => y * fy) _ _ _ _ (times_monotone fy Hy) Ey)
    as (ly & hy & Ey2 & Ely & Ehy).
  rewrite Ex2 in Ex'. rewrite Ey2 in Ey'.
  injection Ex' as <- <-. injection Ey' as <- <-. auto.
Qed.

(** A translation moves both planar extremes. *)
Lemma box_translate (g : BufferGeometry) (dx dy dz : Q) (b : Box3) :
  computeBoundingBox g = Some b ->
  exists b', computeBoundingBox (translate dx dy dz g) = Some b'
             /\ vx (bmin b') == vx (bmin b) + dx
             /\ vx (bmax b') == vx (bmax b) + dx
             /\ vy (bmin b') == vy (bmin b) + dy
             /\ vy (bmax b') == vy (bmax b) + dy.
Proof.
  intros Hb.
  destruct (boundingBox_extents g b Hb) as (Ex & Ey & _).
  destruct (boundingBox_some (translate dx dy dz g)) as (b' & Hb').
  { change (positions (translate dx dy dz g))
      with (map (fun v => V3 (vx v + dx) (vy v + dy) (vz v + dz)) (positions g)).
    unfold computeBoundingBox in Hb.
    destruct (positions g); discriminate. }
  exists b'. split; [assumption |].
  destruct (boundingBox_extents _ b' Hb') as (Ex' & Ey' & _).
  change (positions (translate dx dy dz g))
    with (map (fun v => V3 (vx v + dx) (vy v + dy) (vz v + dz)) (positions g))
    in Ex', Ey'.
  rewrite map_map in Ex', Ey'. simpl in Ex', Ey'.
  rewrite <- (map_map vx (fun x => x + dx)) in Ex'.
  rewrite <- (map_map vy (fun y => y + dy)) in Ey'.
  destruct (extent_map (fun x => x + dx) _ _ _ _ (plus_monotone dx) Ex)
    as (lx & hx & Ex2 & Elx & Ehx).
  destruct (extent_map (fun y => y + dy) _ _ _ _ (plus_monotone dy) Ey)
    as (ly & hy & Ey2 & Ely & Ehy).
  rewrite Ex2 in Ex'. rewrite Ey2 in Ey'.
  injection Ex' as <- <-. injection Ey' as <- <-. auto.
Qed.

(** After [recentre] the centre of the bounding box is on the build axis. *)
Lemma recentre_centred (g : BufferGeometry) (b : Box3) :
  computeBoundingBox g = Some b ->
  exists b', computeBoundingBox (recentre g) = Some b'
             /\ vx (getCenter b') == 0 /\ vy (getCenter b') == 0
             /\ boxWidth b' == boxWidth b /\ boxHeight b' == boxHeight b.
Proof.
  intro Hb. unfold recentre. rewrite Hb.
  destruct (box_translate g (- vx (getCenter b)) (- vy (getCenter b)) 0 b Hb)
    as (b' & Hb' & E1 & E2 & E3 & E4).
  exists b'. split; [assumption |].
  unfold boxWidth, boxHeight. simpl in *.
  rewrite E1, E2, E3, E4.
  repeat split; ring.
Qed.

End Transformations.

(** ** The footprint scale of the outline branch *)

Section Footprint.
Context `{Trig} `{Flip}.

Lemma footprintScale_measured (s : CutterSettings) (g : BufferGeometry)
  (b : Box3) :
  computeBoundingBox g = Some b -> 0 < boxWidth b ->
  footprintScale s g = width s / boxWidth b.
Proof.
  intros Hb Hw. unfold footprintScale. rewrite Hb.
  apply Qltb_true in Hw. now rewrite Hw.
Qed.

Lemma layout_outline (s : CutterSettings) (stampGeo : BufferGeometry)
  (sil : Shape) :
  shape s = outline ->
  let frameGeo := flipGeometryY (createCutterFrame s (Some sil)) in
  let baseGeo := flipGeometryY (createBasePlate s (Some sil)) in
  let f := footprintScale s frameGeo in
  (Qeq_bool f 1 = true
   /\ layout s stampGeo (Some sil) = mkAssembly stampGeo frameGeo baseGeo f)
  \/ (Qeq_bool f 1 = false
      /\ layout s stampGeo (Some sil)
         = mkAssembly (scale f f 1 stampGeo) (scale f f 1 frameGeo)
                      (scale f f 1 baseGeo) f).
Proof.
  intros Hs frameGeo baseGeo f. unfold layout. rewrite Hs.
  fold frameGeo baseGeo f. unfold applyGroupScale.
  destruct (Qeq_bool f 1); [left | right]; split; reflexivity.
Qed.

(** Whether or not the factor differs from one, the three parts end up
    where a scale by the factor puts them. *)
Lemma layout_outline_positions (s : CutterSettings)
  (stampGeo : BufferGeometry) (sil : Shape) :
  shape s = outline ->
  let frameGeo := flipGeometryY (createCutterFrame s (Some sil)) in
  let baseGeo := flipGeometryY (createBasePlate s (Some sil)) in
  let f := footprintScale s frameGeo in
  let a := layout s stampGeo (Some sil) in
  appliedScale a = f
  /\ samePositions (positions (stamp a)) (positions (scale f f 1 stampGeo))
  /\ samePositions (positions (frame a)) (positions (scale f f 1 frameGeo))
  /\ samePositions (positions (base a)) (positions (scale f f 1 baseGeo)).
Proof.
  intros Hs frameGeo baseGeo f a.
  destruct (layout_outline s stampGeo sil Hs) as [[E L] | [E L]];
    fold frameGeo baseGeo f in E, L; unfold a; rewrite L; simpl stamp;
    simpl frame; simpl base; simpl appliedScale.
  - apply Qeq_bool_eq in E.
    repeat split; try reflexivity; now apply scale_keeps_unit.
  - repeat split; try reflexivity; apply samePositions_refl.
Qed.

End Footprint.

Section FootprintCases.
Context `{Trig} `{Flip}.

(** The measured width is positive: the one factor, applied to all. *)
Lemma outline_scaled (s : CutterSettings) (stampGeo : BufferGeometry)
  (sil : Shape) (b : Box3) :
  shape s = outline ->
  computeBoundingBox (flipGeometryY (createCutterFrame s (Some sil)))
  = Some b ->
  0 < boxWidth b ->
  let f := width s / boxWidth b in
  let a := layout s stampGeo (Some sil) in
  appliedScale a = f
  /\ samePositions (positions (stamp a)) (positions (scale f f 1 stampGeo))
  /\ samePositions (positions (frame a))
       (positions (scale f f 1
                     (flipGeometryY (createCutterFrame s (Some sil)))))
  /\ samePositions (positions (base a))
       (positions (scale f f 1
                     (flipGeometryY (createBasePlate s (Some sil)))))
  /\ (0 <= width s ->
      exists b', computeBoundingBox (frame a) = Some b'
                 /\ boxWidth b' == width s
                 /\ boxHeight b' == boxHeight b * f).
Proof.
  intros Hs Hb Hw f a.
  pose proof (footprintScale_measured s _ b Hb Hw) as Hf.
  destruct (layout_outline_positions s stampGeo sil Hs) as (E0 & E1 & E2 & E3).
  rewrite Hf in E0, E1, E2, E3. fold f a in E0, E1, E2, E3.
  repeat (split; [assumption |]).
  intro Hreq.
  assert (Hf0 : 0 <= f).
  { unfold f. apply Qle_shift_div_l; [assumption | lra]. }
  assert (Hfw : boxWidth b * f == width s).
  { unfold f. field. lra. }
  destruct (layout_outline s stampGeo sil Hs) as [[E L] | [E L]];
    rewrite Hf in E, L; fold f in E, L; unfold a; rewrite L; simpl frame.
  - apply Qeq_bool_eq in E. exists b. split; [assumption |].
    rewrite E in *. split; [lra | ring].
  - destruct (box_scale _ f f 1 b Hf0 Hf0 Hb) as (b' & Hb' & X0 & X1 & Y0 & Y1).
    exists b'. split; [assumption |].
    unfold boxWidth, boxHeight in *. rewrite X0, X1, Y0, Y1.
    split; [| ring]. rewrite <- Hfw. ring.
Qed.

(** The measured width is not positive, or there is nothing to measure:
    the factor stays 1 and the three parts are left as they are. *)
Lemma outline_unscaled (s : CutterSettings) (stampGeo : BufferGeometry)
  (sil : Shape) :
  shape s = outline ->
  (computeBoundingBox (flipGeometryY (createCutterFrame s (Some sil))) = None
   \/ exists b,
        computeBoundingBox (flipGeometryY (createCutterFrame s (Some sil)))
        = Some b
        /\ boxWidth b <= 0) ->
  layout s stampGeo (Some sil)
  = mkAssembly stampGeo
      (flipGeometryY (createCutterFrame s (Some sil)))
      (flipGeometryY (createBasePlate s (Some sil))) 1.
Proof.
  intros Hs Hcase. unfold layout. rewrite Hs.
  assert (Hf : footprintScale s
                 (flipGeometryY (createCutterFrame s (Some sil))) = 1).
  { unfold footprintScale. destruct Hcase as [-> | (b & -> & Hb)];
      [reflexivity |].
    apply Qltb_false in Hb. now rewrite Hb. }
  rewrite Hf. reflexivity.
Qed.

End FootprintCases.

(** C1. In the outline branch the width of the flipped wall is measured.
    When it is positive, one factor [width / measured width] is applied to
    stamp, wall and base alike, and for a requested width that is not
    negative the bounding width of the wall is afterwards the requested
    width, its bounding height the measured height times the same factor.
    When the measured width is not positive, or the wall has no vertex to
    measure, no scale is applied: the factor is 1 and stamp, wall and base
    are left as they are. *)
Theorem C1_outline_wall_scaled_to_requested_width :
  forall (T : Trig) (F : Flip) (s : CutterSettings)
         (stampGeo : BufferGeometry) (sil : Shape),
    shape s = outline ->
    let wall := flipGeometryY (createCutterFrame s (Some sil)) in
    let plate := flipGeometryY (createBasePlate s (Some sil)) in
    let a := layout s stampGeo (Some sil) in
    (forall b, computeBoundingBox wall = Some b ->
               0 < boxWidth b ->
               let f := width s / boxWidth b in
               appliedScale a = f
               /\ samePositions (positions (stamp a))
                    (positions (scale f f 1 stampGeo))
               /\ samePositions (positions (frame a))
                    (positions (scale f f 1 wall))
               /\ samePositions (positions (base a))
                    (positions (scale f f 1 plate))
               /\ (0 <= width s ->
                   exists b', computeBoundingBox (frame a) = Some b'
                              /\ boxWidth b' == width s
                              /\ boxHeight b' == boxHeight b * f))
    /\ (forall b, computeBoundingBox wall = Some b ->
                  boxWidth b <= 0 ->
                  a = mkAssembly stampGeo wall plate 1)
    /\ (computeBoundingBox wall = None ->
        a = mkAssembly stampGeo wall plate 1).
Proof.
  intros T F s stampGeo sil Hs wall plate a. split; [| split].
  - intros b Hb Hw. exact (outline_scaled s stampGeo sil b Hs Hb Hw).
  - intros b Hb Hw. apply outline_unscaled; [exact Hs |].
    right. exists b. split; assumption.
  - intro Hnone. apply outline_unscaled; [exact Hs |]. now left.
Qed.

(** The defaults over a silhouette one wide and two high: the wall comes
    out 90 wide.  Over a silhouette without width nothing is scaled. *)
Lemma C1_witness :
  (exists b', @computeBoundingBox Samples.flatTrig
                (frame (@layout Samples.flatTrig negateY Samples.defaults
                          EmptyGeometry (Some Samples.tallBox)))
              = Some b'
              /\ boxWidth b' == 90)
  /\ @layout Samples.flatTrig negateY Samples.defaults EmptyGeometry
       (Some Samples.needle)
     = mkAssembly EmptyGeometry
         (@flipGeometryY negateY
            (@createCutterFrame Samples.flatTrig Samples.defaults
               (Some Samples.needle)))
         (@flipGeometryY negateY
            (createBasePlate Samples.defaults (Some Samples.needle)))
         1.
Proof.
  split.
  - destruct (C1_outline_wall_scaled_to_requested_width Samples.flatTrig
                negateY Samples.defaults EmptyGeometry Samples.tallBox eq_refl)
      as (Hpos & _).
    destruct (Hpos (mkBox3 (V3 0 (- (2)) (- (2))) (V3 1 0 8)) eq_refl eq_refl)
      as (_ & _ & _ & _ & Hbox).
    destruct Hbox as (b' & Hb' & Hw & _); [discriminate |].
    exists b'. split; assumption.
  - destruct (C1_outline_wall_scaled_to_requested_width Samples.flatTrig
                negateY Samples.defaults EmptyGeometry Samples.needle eq_refl)
      as (_ & Hguard & _).
    apply (Hguard (mkBox3 (V3 0 (- (1)) (- (2))) (V3 0 0 8)));
      [reflexivity | discriminate].
Defined.

(** An image in which the tracer finds a silhouette one wide and two high,
    at the defaults: the wall comes out 90 wide and 180 high, so the largest
    planar extent of the assembly is twice the requested width. *)
Lemma C1_counterexample :
  shape Samples.defaults = outline
  /\ width Samples.defaults == 90
  /\ @generateSilhouetteShape Samples.flatTrig Samples.plainCanvas
       Samples.tallTracer (Resampled Samples.twoPixels) Samples.defaults
     = Resolved (Some Samples.tallBox)
  /\ exists a,
       @generate Samples.flatTrig negateY Samples.plainCanvas
         Samples.tallTracer (Resampled Samples.twoPixels) Samples.defaults
       = Some a
       /\ @maxPlanarDimension Samples.flatTrig a = Some 180
       /\ ~ (180 <= width Samples.defaults * (101 # 100)).
Proof.
  split; [reflexivity |]. split; [reflexivity |]. split; [reflexivity |].
  eexists. split; [reflexivity |]. split; [vm_compute; reflexivity |].
  intro L. apply Qle_bool_iff in L. vm_compute in L. discriminate L.
Qed.

(** ** The fit of the relief into a rectangle or circle footprint *)

Section Fit.
Context `{Trig} `{Flip}.

Lemma layout_primitive (s : CutterSettings) (stampGeo : BufferGeometry)
  (sil : option Shape) :
  shape s <> outline ->
  layout s stampGeo sil
  = mkAssembly (fitStamp s stampGeo) (createCutterFrame s None)
               (createBasePlate s None) 1.
Proof.
  intro Hs. unfold layout. destruct (shape s); [reflexivity .. | congruence].
Qed.

End Fit.

(** C7. For the shapes [rectangle] and [circle] and a relief whose bounding
    box has positive width and height, the relief is scaled by one factor
    on both planar axes, the smaller of [(width - 2 * padding) / relief
    width] and [(height - 2 * padding) / relief height] with [padding] 5% of
    the width on either axis, and then moved so that the centre of its
    bounding box lies on the build axis; wall and base are left as built.
    When both available extents are non-negative the scaled relief keeps
    its aspect, fits in them, and fills one of them. *)
Theorem C7_relief_fits_footprint_less_width_margin :
  forall (T : Trig) (F : Flip) (s : CutterSettings)
         (stampGeo : BufferGeometry) (sil : option Shape) (bb : Box3),
    shape s <> outline ->
    computeBoundingBox stampGeo = Some bb ->
    0 < boxWidth bb ->
    0 < boxHeight bb ->
    let padding := width s * (5 # 100) in
    let availableW := width s - padding * 2 in
    let availableH := height s - padding * 2 in
    let f := Qmin (availableW / boxWidth bb) (availableH / boxHeight bb) in
    let a := layout s stampGeo sil in
    (exists c, stamp a = translate (- vx c) (- vy c) 0 (scale f f 1 stampGeo))
    /\ frame a = createCutterFrame s None
    /\ base a = createBasePlate s None
    /\ exists b', computeBoundingBox (stamp a) = Some b'
                  /\ vx (getCenter b') == 0
                  /\ vy (getCenter b') == 0
                  /\ (0 <= availableW -> 0 <= availableH ->
                      boxWidth b' == boxWidth bb * f
                      /\ boxHeight b' == boxHeight bb * f
                      /\ boxWidth b' <= availableW
                      /\ boxHeight b' <= availableH
                      /\ (boxWidth b' == availableW
                          \/ boxHeight b' == availableH)).
Proof.
  intros T F s stampGeo sil bb Hs Hbb Hw Hh padding availableW availableH f a.
  unfold a. rewrite (layout_primitive s stampGeo sil Hs). simpl.
  assert (Hfit : fitScale s stampGeo = f).
  { unfold fitScale. rewrite Hbb. reflexivity. }
  unfold fitStamp. rewrite Hfit.
  split; [| split; [reflexivity | split; [reflexivity |]]].
  { unfold recentre. eexists. reflexivity. }
  destruct (boundingBox_some (scale f f 1 stampGeo)) as (b2 & Hb2).
  { change (positions (scale f f 1 stampGeo))
      with (map (fun v => V3 (vx v * f) (vy v * f) (vz v * 1))
                (positions stampGeo)).
    unfold computeBoundingBox in Hbb.
    destruct (positions stampGeo); discriminate. }
  destruct (recentre_centred _ b2 Hb2) as (b' & Hb' & Cx & Cy & Ew & Eh).
  exists b'. repeat (split; [assumption |]).
  intros HaW HaH.
  set (qx := availableW / boxWidth bb) in *.
  set (qy := availableH / boxHeight bb) in *.
  assert (Hqx : qx * boxWidth bb == availableW) by (unfold qx; field; lra).
  assert (Hqy : qy * boxHeight bb == availableH) by (unfold qy; field; lra).
  assert (Hqx0 : 0 <= qx) by (unfold qx; apply Qle_shift_div_l; lra).
  assert (Hqy0 : 0 <= qy) by (unfold qy; apply Qle_shift_div_l; lra).
  assert (Hf0 : 0 <= f) by (unfold f; apply Q.min_glb; assumption).
  destruct (box_scale stampGeo f f 1 bb Hf0 Hf0 Hbb)
    as (b3 & Hb3 & X0 & X1 & Y0 & Y1).
  rewrite Hb2 in Hb3. injection Hb3 as <-.
  assert (Ew' : boxWidth b' == boxWidth bb * f)
    by (rewrite Ew; unfold boxWidth; rewrite X0, X1; ring).
  assert (Eh' : boxHeight b' == boxHeight bb * f)
    by (rewrite Eh; unfold boxHeight; rewrite Y0, Y1; ring).
  pose proof (Q.le_min_l qx qy) as Lx.
  pose proof (Q.le_min_r qx qy) as Ly.
  fold f in Lx, Ly.
  split; [exact Ew' | split; [exact Eh' |]].
  rewrite Ew', Eh'.
  split; [nra | split; [nra |]].
  destruct (Q.min_dec qx qy) as [E | E]; fold f in E; rewrite E;
    [left | right]; lra.
Qed.

(** A rectangle 50 by 100 and a relief 1 by 100: the relief ends up
    centred. *)
Lemma C7_witness :
  exists b', @computeBoundingBox Samples.flatTrig
               (stamp (@layout Samples.flatTrig negateY Samples.narrow
                         Samples.tallRelief None))
             = Some b'
             /\ vx (getCenter b') == 0 /\ vy (getCenter b') == 0.
Proof.
  destruct (C7_relief_fits_footprint_less_width_margin Samples.flatTrig
              negateY Samples.narrow Samples.tallRelief None
              (mkBox3 (V3 0 0 0) (V3 1 100 1)))
    as (_ & _ & _ & b' & Hb' & Cx & Cy & _);
    try reflexivity.
  - discriminate.
  - exists b'. auto.
Defined.

(** A rectangle 50 by 100 and an image in which the tracer finds a relief
    1 by 100: the footprint is 100 high, 5% of that on each side leaves 90,
    and the fitted relief is 95 high. *)
Lemma C7_counterexample :
  shape Samples.narrow = rectangle
  /\ exists a b',
       @generate Samples.flatTrig negateY Samples.plainCanvas
         Samples.thinTracer (Resampled Samples.twoPixels) Samples.narrow
       = Some a
       /\ @computeBoundingBox Samples.flatTrig (stamp a) = Some b'
       /\ boxHeight b' == 95
       /\ height Samples.narrow
          - 2 * (height Samples.narrow * (5 # 100)) == 90
       /\ ~ (boxHeight b'
             <= height Samples.narrow
                - 2 * (height Samples.narrow * (5 # 100))).
Proof.
  split; [reflexivity |]. do 2 eexists. split; [reflexivity |].
  split; [vm_compute; reflexivity |].
  split; [reflexivity |]. split; [reflexivity |].
  intro L. apply Qle_bool_iff in L. vm_compute in L. discriminate L.
Qed.

(** ** The flip of wall and base *)

(** C8. In the outline branch with a silhouette the wall and the base are
    each flipped once and after that, if at all, scaled by the footprint
    factor, which is measured on the flipped wall: a vertex [(x, y, z)] of
    the wall or base as built ends at [(x * f, - y * f, z)]. *)
Theorem C8_wall_and_base_flipped_once_before_scale :
  forall (T : Trig) (s : CutterSettings) (stampGeo : BufferGeometry)
         (sil : Shape),
    shape s = outline ->
    let F := negateY in
    let wall := createCutterFrame s (Some sil) in
    let plate := createBasePlate s (Some sil) in
    let f := footprintScale s (flipGeometryY wall) in
    let a := layout s stampGeo (Some sil) in
    let place := fun v => V3 (vx v * f) (- vy v * f) (vz v) in
    (frame a = flipGeometryY wall \/ frame a = scale f f 1 (flipGeometryY wall))
    /\ (base a = flipGeometryY plate
        \/ base a = scale f f 1 (flipGeometryY plate))
    /\ samePositions (positions (frame a)) (map place (positions wall))
    /\ samePositions (positions (base a)) (map place (positions plate))
    /\ (forall g, positions (flipGeometryY g)
                  = map (fun v => V3 (vx v * 1) (vy v * (-1)) (vz v * 1))
                        (positions g)).
Proof.
  intros T s stampGeo sil Hs F wall plate f a place.
  assert (Hplace : forall g,
             samePositions (positions (scale f f 1 (flipGeometryY g)))
                           (map place (positions g))).
  { intro g. unfold flipGeometryY, F, negateY.
    change (positions (scale f f 1 (scale 1 (-1) 1 g)))
      with (map (fun v => V3 (vx v * f) (vy v * f) (vz v * 1))
              (map (fun v => V3 (vx v * 1) (vy v * (-1)) (vz v * 1))
                 (positions g))).
    rewrite map_map. apply samePositions_map. intro v.
    repeat split; simpl; ring. }
  assert (Hunit : forall g, f == 1 ->
             samePositions (positions (flipGeometryY g))
                           (map place (positions g))).
  { intros g Hf. unfold flipGeometryY, F, negateY.
    change (positions (scale 1 (-1) 1 g))
      with (map (fun v => V3 (vx v * 1) (vy v * (-1)) (vz v * 1))
                (positions g)).
    apply samePositions_map. intro v.
    repeat split; simpl; rewrite ?Hf; ring. }
  destruct (layout_outline s stampGeo sil Hs) as [[E L] | [E L]];
    fold wall plate f in E, L; unfold a; rewrite L; simpl frame; simpl base.
  - apply Qeq_bool_eq in E.
    split; [now left | split; [now left |]].
    split; [now apply Hunit | split; [now apply Hunit | reflexivity]].
  - split; [now right | split; [now right |]].
    split; [apply Hplace | split; [apply Hplace | reflexivity]].
Qed.

(** The defaults over the tall silhouette: the factor is 90, and a vertex
    [(x, y, z)] of the wall as built ends at [(90 x, - 90 y, z)]. *)
Lemma C8_witness :
  samePositions
    (@positions Samples.flatTrig
       (frame (@layout Samples.flatTrig negateY Samples.defaults EmptyGeometry
                 (Some Samples.tallBox))))
    (map (fun v => V3 (vx v * 90) (- vy v * 90) (vz v))
         (@positions Samples.flatTrig
            (@createCutterFrame Samples.flatTrig Samples.defaults
               (Some Samples.tallBox)))).
Proof.
  exact (proj1 (proj2 (proj2
           (C8_wall_and_base_flipped_once_before_scale Samples.flatTrig
              Samples.defaults EmptyGeometry Samples.tallBox eq_refl)))).
Defined.

(** * Further properties of the pipeline *)

(** ** More on extents *)

Lemma extent_bounds (l : list Q) (lo hi : Q) :
  extent l = Some (lo, hi) -> forall x, In x l -> lo <= x <= hi.
Proof.
  destruct l as [|a t]; [discriminate |].
  simpl. intro E. injection E as <- <-. intros x [<- | Hx].
  - split; [apply lowest_le_start | apply highest_ge_start].
  - split; [now apply lowest_le_each | now apply highest_ge_each].
Qed.

Lemma lowest_reached (l : list Q) :
  forall a, exists x, In x (a :: l) /\ x == lowest a l.
Proof.
  unfold lowest. induction l as [|y t IH]; intro a; simpl.
  - exists a. split; [now left | reflexivity].
  - destruct (IH (Qmin a y)) as (x & [<- | Hx] & Ex).
    + destruct (Q.min_dec a y) as [E | E].
      * exists a. split; [now left |]. rewrite <- Ex. now symmetry.
      * exists y. split; [right; now left |]. rewrite <- Ex. now symmetry.
    + exists x. split; [right; now right | exact Ex].
Qed.

Lemma highest_reached (l : list Q) :
  forall a, exists x, In x (a :: l) /\ x == highest a l.
Proof.
  unfold highest. induction l as [|y t IH]; intro a; simpl.
  - exists a. split; [now left | reflexivity].
  - destruct (IH (Qmax a y)) as (x & [<- | Hx] & Ex).
    + destruct (Q.max_dec a y) as [E | E].
      * exists a. split; [now left |]. rewrite <- Ex. now symmetry.
      * exists y. split; [right; now left |]. rewrite <- Ex. now symmetry.
    + exists x. split; [right; now right | exact Ex].
Qed.

Lemma extent_reached (l : list Q) (lo hi : Q) :
  extent l = Some (lo, hi) ->
  (exists x, In x l /\ x == lo) /\ (exists x, In x l /\ x == hi).
Proof.
  destruct l as [|a t]; [discriminate |].
  simpl. intro E. injection E as <- <-.
  split; [apply lowest_reached | apply highest_reached].
Qed.

(** A run of numbers between [a] and [b] that reaches both spans them. *)
Lemma extent_attained (l : list Q) (a b : Q) :
  (forall x, In x l -> a <= x <= b) ->
  (exists x, In x l /\ x == a) ->
  (exists x, In x l /\ x == b) ->
  exists lo hi, extent l = Some (lo, hi) /\ lo == a /\ hi == b.
Proof.
  intros Hall (xa & Hxa & Ea) (xb & Hxb & Eb).
  destruct l as [|x0 t]; [contradiction |].
  simpl. do 2 eexists. split; [reflexivity |].
  split; apply Qle_antisym.
  - destruct Hxa as [-> | Hxa].
    + pose proof (lowest_le_start t xa). lra.
    + pose proof (lowest_le_each t x0 xa Hxa). lra.
  - apply lowest_bounded; [apply Hall; now left |].
    intros x Hx. apply Hall. now right.
  - apply highest_bounded; [apply Hall; now left |].
    intros x Hx. apply Hall. now right.
  - destruct Hxb as [-> | Hxb].
    + pose proof (highest_ge_start t xb). lra.
    + pose proof (highest_ge_each t x0 xb Hxb). lra.
Qed.

Section PlanarBoxes.
Context `{Trig}.

(** The planar corners of a bounding box, from bounds on the vertices. *)
Lemma planar_box (g : BufferGeometry) (x0 x1 y0 y1 : Q) :
  (forall v, In v (positions g) ->
             x0 <= vx v <= x1 /\ y0 <= vy v <= y1) ->
  (exists v, In v (positions g) /\ vx v == x0) ->
  (exists v, In v (positions g) /\ vx v == x1) ->
  (exists v, In v (positions g) /\ vy v == y0) ->
  (exists v, In v (positions g) /\ vy v == y1) ->
  exists b, computeBoundingBox g = Some b
            /\ vx (bmin b) == x0 /\ vx (bmax b) == x1
            /\ vy (bmin b) == y0 /\ vy (bmax b) == y1.
Proof.
  intros Hall (a & Ha & Ea) (b & Hb & Eb) (c & Hc & Ec) (d & Hd & Ed).
  destruct (boundingBox_some g) as (bx & Hbx).
  { intro E. rewrite E in Ha. exact Ha. }
  exists bx. split; [assumption |].
  destruct (boundingBox_extents g bx Hbx) as (Hx & Hy & _).
  destruct (extent_attained (map vx (positions g)) x0 x1)
    as (lx & hx & Ex & Elx & Ehx).
  { intros x Hx'. apply in_map_iff in Hx'. destruct Hx' as (v & <- & Hv).
    now apply Hall. }
  { exists (vx a). split; [now apply in_map | assumption]. }
  { exists (vx b). split; [now apply in_map | assumption]. }
  destruct (extent_attained (map vy (positions g)) y0 y1)
    as (ly & hy & Ey & Ely & Ehy).
  { intros y Hy'. apply in_map_iff in Hy'. destruct Hy' as (v & <- & Hv).
    now apply Hall. }
  { exists (vy c). split; [now apply in_map | assumption]. }
  { exists (vy d). split; [now apply in_map | assumption]. }
  rewrite Hx in Ex. rewrite Hy in Ey.
  injection Ex as <- <-. injection Ey as <- <-. auto.
Qed.

End PlanarBoxes.

(** ** The rectangle footprint *)

(** Division by two, for linear arithmetic. *)
Ltac halves := unfold Qdiv in *; change (/ 2) with (1 # 2) in *.

Ltac each_vertex H :=
  simpl in H;
  repeat (destruct H as [<- | H]; [simpl; halves; try lra |]);
  try contradiction.

(** X1. For the shape [rectangle] with non-negative width, height and wall
    thickness the base plate spans [width] by [height] around the build
    axis, and the wall spans that footprint widened by [frameThickness] on
    every side: it is [width + 2 frameThickness] wide and
    [height + 2 frameThickness] high. *)
Theorem X1_rectangle_footprint :
  forall (T : Trig) (s : CutterSettings) (o : option Shape),
    shape s = rectangle ->
    0 <= width s -> 0 <= height s -> 0 <= frameThickness s ->
    (exists b, computeBoundingBox (createBasePlate s o) = Some b
               /\ vx (bmin b) == - (width s / 2)
               /\ vx (bmax b) == width s / 2
               /\ vy (bmin b) == - (height s / 2)
               /\ vy (bmax b) == height s / 2)
    /\ (exists b, computeBoundingBox (createCutterFrame s o) = Some b
                  /\ vx (bmin b) == - (width s / 2) - frameThickness s
                  /\ vx (bmax b) == width s / 2 + frameThickness s
                  /\ vy (bmin b) == - (height s / 2) - frameThickness s
                  /\ vy (bmax b) == height s / 2 + frameThickness s
                  /\ boxWidth b == width s + 2 * frameThickness s
                  /\ boxHeight b == height s + 2 * frameThickness s).
Proof.
  intros T s o Hs Hw Hh Ht. split.
  - unfold createBasePlate. rewrite Hs.
    apply planar_box.
    + intros v Hv. each_vertex Hv.
    + exists (V3 (- (width s / 2) + 0) (height s / 2 + 0)
                 (baseThickness s / 2 + - baseThickness s / 2)).
      split; [simpl; tauto | simpl; lra].
    + exists (V3 (width s / 2 + 0) (height s / 2 + 0)
                 (baseThickness s / 2 + - baseThickness s / 2)).
      split; [simpl; tauto | simpl; lra].
    + exists (V3 (width s / 2 + 0) (- (height s / 2) + 0)
                 (baseThickness s / 2 + - baseThickness s / 2)).
      split; [simpl; tauto | simpl; lra].
    + exists (V3 (width s / 2 + 0) (height s / 2 + 0)
                 (baseThickness s / 2 + - baseThickness s / 2)).
      split; [simpl; tauto | simpl; lra].
  - unfold createCutterFrame. rewrite Hs.
    destruct (planar_box
                (translate 0 0 (- baseThickness s)
                   (ExtrudeGeometry
                      [rectangleWallShape (width s / 2) (height s / 2)
                         (frameThickness s)]
                      (frameHeight s + baseThickness s)))
                (- (width s / 2) - frameThickness s)
                (width s / 2 + frameThickness s)
                (- (height s / 2) - frameThickness s)
                (height s / 2 + frameThickness s))
      as (b & Hb & X0 & X1 & Y0 & Y1).
    + intros v Hv. each_vertex Hv.
    + exists (V3 (- (width s / 2) - frameThickness s + 0)
                 (- (height s / 2) - frameThickness s + 0)
                 (0 + - baseThickness s)).
      split; [simpl; tauto | simpl; lra].
    + exists (V3 (width s / 2 + frameThickness s + 0)
                 (- (height s / 2) - frameThickness s + 0)
                 (0 + - baseThickness s)).
      split; [simpl; tauto | simpl; lra].
    + exists (V3 (- (width s / 2) - frameThickness s + 0)
                 (- (height s / 2) - frameThickness s + 0)
                 (0 + - baseThickness s)).
      split; [simpl; tauto | simpl; lra].
    + exists (V3 (width s / 2 + frameThickness s + 0)
                 (height s / 2 + frameThickness s + 0)
                 (0 + - baseThickness s)).
      split; [simpl; tauto | simpl; lra].
    + exists b. split; [exact Hb |].
      unfold boxWidth, boxHeight. rewrite X0, X1, Y0, Y1.
      repeat split; try reflexivity; field.
Qed.

(** A rectangle 50 by 100 with a wall of 2: the wall is 54 wide. *)
Lemma X1_witness :
  exists b, @computeBoundingBox Samples.flatTrig
              (@createCutterFrame Samples.flatTrig Samples.narrow None)
            = Some b
            /\ boxWidth b == 54.
Proof.
  destruct (X1_rectangle_footprint Samples.flatTrig Samples.narrow None)
    as (_ & b & Hb & _ & _ & _ & _ & Hw & _);
    try reflexivity; try discriminate.
  exists b. split; [exact Hb |]. rewrite Hw. reflexivity.
Defined.

(** ** What [generate] hands over *)

(** X3. With the shape [outline], when no silhouette is found (nothing is
    traced in the expanded mask, or there is no 2D context), wall and base
    are the rectangle ones for the same settings, nothing is scaled, and
    the relief is handed over exactly as [createStampGeometry] built it: it
    is neither fitted to the footprint nor recentred. *)
Theorem X3_outline_without_silhouette_falls_back_to_rectangle :
  forall (T : Trig) (F : Flip) (C : Canvas2D) (R : Tracer)
         (img : ImageData) (s : CutterSettings) (stampGeo : BufferGeometry),
    shape s = outline ->
    imagedataToShapes silhouetteTrace
      (mkImageData (imageWidth img) (imageHeight img)
                   (silhouetteMask (data img))) = [] ->
    createStampGeometry (Resampled img) s = Resolved stampGeo ->
    generate (Resampled img) s
    = Some (mkAssembly stampGeo
              (createCutterFrame (withShape s rectangle) None)
              (createBasePlate (withShape s rectangle) None) 1)
    /\ generate NoContext s
       = Some (mkAssembly EmptyGeometry
                 (createCutterFrame (withShape s rectangle) None)
                 (createBasePlate (withShape s rectangle) None) 1).
Proof.
  intros T F C R img s stampGeo Hs Hnone Hstamp.
  unfold generate. rewrite Hstamp, Hs.
  unfold generateSilhouetteShape. rewrite Hnone.
  unfold layout. rewrite Hs. simpl largestShape. cbv iota.
  split; reflexivity.
Qed.

(** The defaults and an image in which nothing is traced. *)
Lemma X3_witness :
  @generate Samples.flatTrig negateY Samples.plainCanvas Samples.blankTracer
    (Resampled Samples.twoPixels) Samples.defaults
  = Some (mkAssembly EmptyGeometry
            (@createCutterFrame Samples.flatTrig
               (withShape Samples.defaults rectangle) None)
            (createBasePlate (withShape Samples.defaults rectangle) None) 1).
Proof.
  exact (proj1 (X3_outline_without_silhouette_falls_back_to_rectangle
                  Samples.flatTrig negateY Samples.plainCanvas
                  Samples.blankTracer Samples.twoPixels Samples.defaults
                  EmptyGeometry eq_refl eq_refl eq_refl)).
Defined.

Section ReliefPlane.
Context `{Trig} `{Flip}.

Lemma scale_keeps_z (g : BufferGeometry) (fx fy : Q) (v : Vector3) :
  In v (positions (scale fx fy 1 g)) ->
  exists u, In u (positions g) /\ vz v == vz u.
Proof.
  change (positions (scale fx fy 1 g))
    with (map (fun u => V3 (vx u * fx) (vy u * fy) (vz u * 1)) (positions g)).
  intro Hv. apply in_map_iff in Hv. destruct Hv as (u & <- & Hu).
  exists u. split; [assumption |]. simpl. ring.
Qed.

Lemma translate_keeps_z (g : BufferGeometry) (dx dy : Q) (v : Vector3) :
  In v (positions (translate dx dy 0 g)) ->
  exists u, In u (positions g) /\ vz v == vz u.
Proof.
  change (positions (translate dx dy 0 g))
    with (map (fun u => V3 (vx u + dx) (vy u + dy) (vz u + 0)) (positions g)).
  intro Hv. apply in_map_iff in Hv. destruct Hv as (u & <- & Hu).
  exists u. split; [assumption |]. simpl. ring.
Qed.

(** The layout moves no vertex of the relief along the build axis. *)
Lemma layout_keeps_stamp_z (s : CutterSettings) (g : BufferGeometry)
  (sil : option Shape) (v : Vector3) :
  In v (positions (stamp (layout s g sil))) ->
  exists u, In u (positions g) /\ vz v == vz u.
Proof.
  unfold layout, applyGroupScale.
  assert (Hfit : In v (positions (fitStamp s g)) ->
                 exists u, In u (positions g) /\ vz v == vz u).
  { unfold fitStamp, recentre. intro Hv.
    apply translate_keeps_z in Hv. destruct Hv as (u & Hu & E).
    apply scale_keeps_z in Hu. destruct Hu as (w & Hw & E').
    exists w. split; [assumption | lra]. }
  destruct (shape s).
  - simpl. exact Hfit.
  - simpl. exact Hfit.
  - destruct sil as [sh|].
    + destruct (Qeq_bool _ 1); simpl stamp.
      * intro Hv. exists v. split; [assumption | reflexivity].
      * apply scale_keeps_z.
    + simpl. intro Hv. exists v. split; [assumption | reflexivity].
Qed.

End ReliefPlane.

(** X4. In whatever [generate] hands over, every vertex of the relief lies
    on the plane [z = 0], where the top of the base plate is, or on
    [z = detailHeight]: neither the fit nor the footprint scale moves the
    relief along the build axis. *)
Theorem X4_relief_stays_on_the_plate :
  forall (T : Trig) (F : Flip) (C : Canvas2D) (R : Tracer)
         (src : Source) (s : CutterSettings) (a : Assembly),
    generate src s = Some a ->
    forall v, In v (positions (stamp a)) ->
              vz v == 0 \/ vz v == detailHeight s.
Proof.
  intros T F C R src s a Hgen v Hv.
  assert (Hbuilt : forall g, createStampGeometry src s = Resolved g ->
            forall u, In u (positions g) ->
                      vz u == 0 \/ vz u == detailHeight s).
  { intros g Hg u Hu. unfold createStampGeometry in Hg.
    destruct src as [| | img]; [discriminate | |].
    - injection Hg as <-. contradiction.
    - destruct (imagedataToShapes reliefTrace _) as [|sh shs];
        injection Hg as <-; [contradiction |].
      apply scale_keeps_z in Hu. destruct Hu as (w & Hw & E).
      change (positions (ExtrudeGeometry (sh :: shs) (detailHeight s)))
        with (flat_map (extrudeShape (detailHeight s)) (sh :: shs)) in Hw.
      apply in_flat_map in Hw. destruct Hw as (x & _ & Hw).
      unfold extrudeShape in Hw. apply in_app_or in Hw.
      destruct Hw as [Hw | Hw]; apply in_map_iff in Hw;
        destruct Hw as (p & <- & _); simpl in E; [left | right]; exact E. }
  unfold generate in Hgen.
  destruct (createStampGeometry src s) as [g|] eqn:Hg; [| discriminate].
  assert (Hlay : forall sil, a = layout s g sil ->
                             vz v == 0 \/ vz v == detailHeight s).
  { intros sil ->. apply layout_keeps_stamp_z in Hv.
    destruct Hv as (u & Hu & E). rewrite E. now apply (Hbuilt g). }
  destruct (shape s).
  - injection Hgen as <-. now apply (Hlay None).
  - injection Hgen as <-. now apply (Hlay None).
  - destruct (generateSilhouetteShape src s) as [sil|]; [| discriminate].
    injection Hgen as <-. now apply (Hlay sil).
Qed.

(** The assembly of the thin relief in the narrow rectangle: its first
    vertex is on one of the two planes. *)
Lemma X4_witness :
  exists a v,
    @generate Samples.flatTrig negateY Samples.plainCanvas Samples.thinTracer
      (Resampled Samples.twoPixels) Samples.narrow = Some a
    /\ In v (@positions Samples.flatTrig (stamp a))
    /\ (vz v == 0 \/ vz v == 35 # 10).
Proof.
  eexists.
  assert (Ha : @generate Samples.flatTrig negateY Samples.plainCanvas
                 Samples.thinTracer (Resampled Samples.twoPixels)
                 Samples.narrow = Some _) by reflexivity.
  match type of Ha with _ = Some ?a =>
    destruct (@positions Samples.flatTrig (stamp a)) as [|v rest] eqn:E
  end.
  - vm_compute in E. discriminate E.
  - exists v.
    match type of Ha with _ = Some ?a =>
      assert (Hv : In v (@positions Samples.flatTrig (stamp a)))
        by (rewrite E; now left)
    end.
    split; [exact Ha |]. split; [exact Hv |].
    exact (X4_relief_stays_on_the_plate Samples.flatTrig negateY
             Samples.plainCanvas Samples.thinTracer
             (Resampled Samples.twoPixels) Samples.narrow _ Ha v Hv).
Defined.

(** ** The closed contour and its hole *)

Section Closing.

Lemma equals_refl (p : Vector2) : equals p p = true.
Proof. unfold equals. now rewrite !Qeq_bool_refl. Qed.

Lemma closePoints_cases (points : list Vector2) :
  closePoints points = points
  \/ exists first rest, points = first :: rest
                        /\ equals first (last points first) = false
                        /\ closePoints points = points ++ [first].
Proof.
  destruct points as [|p t]; [now left |]. unfold closePoints.
  destruct (equals p (last (p :: t) p)) eqn:E; simpl negb; cbv iota.
  - now left.
  - right. exists p, t. auto.
Qed.

Lemma closePoints_fixed (points : list Vector2) (p : Vector2)
  (rest : list Vector2) :
  points = p :: rest -> equals p (last points p) = true ->
  closePoints points = points.
Proof.
  intros -> E. unfold closePoints. now rewrite E.
Qed.

Lemma closePoints_in (points : list Vector2) (p : Vector2) :
  In p (closePoints points) <-> In p points.
Proof.
  destruct (closePoints_cases points) as [-> | (f & r & -> & _ & ->)];
    [tauto |].
  rewrite in_app_iff. simpl. tauto.
Qed.

End Closing.

(** X5. Closing a contour is idempotent: it adds the first point at the end
    at most once, leaves a contour that already ends where it starts as it
    is, and neither drops nor invents a point. *)
Theorem X5_closing_a_contour_is_idempotent :
  forall (points : list Vector2),
    closePoints (closePoints points) = closePoints points
    /\ (forall p, In p (closePoints points) <-> In p points)
    /\ (exists tail, closePoints points = points ++ tail
                     /\ (length tail <= 1)%nat)
    /\ (forall p rest, points = p :: rest ->
                       equals p (last points p) = true ->
                       closePoints points = points).
Proof.
  intro points. split; [| split; [| split]].
  - destruct (closePoints_cases points) as [E | (f & r & Ep & _ & E)].
    + rewrite E. exact E.
    + rewrite E. subst points.
      apply (closePoints_fixed _ f (r ++ [f])); [reflexivity |].
      change ((f :: r) ++ [f]) with (f :: (r ++ [f])).
      rewrite last_cons_default, last_last. apply equals_refl.
  - apply closePoints_in.
  - destruct (closePoints_cases points) as [-> | (f & r & _ & _ & ->)].
    + exists []. rewrite app_nil_r. split; [reflexivity | simpl; lia].
    + exists [f]. split; [reflexivity | simpl; lia].
  - intros p rest. apply closePoints_fixed.
Qed.

Section Means.
Variable f : Vector2 -> Q.

Lemma total_acc (l : list Vector2) :
  forall a, total f l a == a + total f l 0.
Proof.
  unfold total. induction l as [|p t IH]; intro a; simpl.
  - ring.
  - rewrite (IH (a + f p)), (IH (0 + f p)). ring.
Qed.

Lemma count_cons (p : Vector2) (l : list Vector2) :
  count (p :: l) == count l + 1.
Proof.
  unfold count. simpl length. rewrite Nat2Z.inj_succ, <- Z.add_1_r.
  now rewrite inject_Z_plus.
Qed.

Lemma count_positive (p : Vector2) (l : list Vector2) : 0 < count (p :: l).
Proof.
  unfold count. change 0 with (inject_Z 0). rewrite <- Zlt_Qlt.
  simpl length. lia.
Qed.

Lemma total_between (lo hi : Q) (l : list Vector2) :
  (forall p, In p l -> lo <= f p <= hi) ->
  lo * count l <= total f l 0 <= hi * count l.
Proof.
  induction l as [|p t IH]; intro Hall.
  - unfold total, count. simpl. change (inject_Z 0) with 0. lra.
  - unfold total. simpl fold_left. fold (total f t (0 + f p)).
    rewrite total_acc, count_cons.
    assert (Hp : lo <= f p <= hi) by (apply Hall; now left).
    assert (Ht : lo * count t <= total f t 0 <= hi * count t)
      by (apply IH; intros q Hq; apply Hall; now right).
    lra.
Qed.

Lemma mean_between (lo hi : Q) (l : list Vector2) :
  l <> [] ->
  (forall p, In p l -> lo <= f p <= hi) ->
  lo <= total f l 0 / count l <= hi.
Proof.
  intros Hne Hall. destruct l as [|p t]; [congruence |].
  pose proof (count_positive p t) as Hn.
  pose proof (total_between lo hi (p :: t) Hall) as [H1 H2].
  split.
  - apply Qle_shift_div_l; assumption.
  - apply Qle_shift_div_r; assumption.
Qed.

(** The total of the values moved towards [a] by the factor [k]. *)
Lemma total_towards (g : Vector2 -> Vector2) (a k : Q) (l : list Vector2) :
  (forall p, f (g p) == a + (f p - a) * k) ->
  fold_left (fun c p => c + f p) (map g l) 0
  == a * count l + k * (total f l 0 - a * count l).
Proof.
  intro Hg. induction l as [|p t IH].
  - unfold total, count. simpl. change (inject_Z 0) with 0. ring.
  - simpl map. simpl fold_left.
    fold (total f (map g t) (0 + f (g p))). rewrite total_acc.
    unfold total at 1. rewrite IH, Hg.
    unfold total at 2. simpl fold_left. fold (total f t (0 + f p)).
    rewrite (total_acc t (0 + f p)), count_cons. ring.
Qed.

End Means.

(** X6. For a positive width the clamp of the hole scale is idle as long as
    four wall thicknesses fit in the width, and holds the scale at one half
    beyond.  While it is idle, the gap between a contour point and its hole
    point is [2 * frameThickness / width] times the offset of the point
    from the centroid, so a point half a width away gets a wall of exactly
    [frameThickness]; with no thickness the hole coincides with the
    contour. *)
Theorem X6_hole_scale_clamp :
  forall (s : CutterSettings),
    0 < width s ->
    (4 * frameThickness s <= width s ->
     holeScale s == 1 - 2 * frameThickness s / width s)
    /\ (width s <= 4 * frameThickness s -> holeScale s == 1 # 2)
    /\ (4 * frameThickness s <= width s ->
        forall c p,
          px p - px (towards c (holeScale s) p)
          == (px p - px c) * (2 * frameThickness s / width s)
          /\ py p - py (towards c (holeScale s) p)
             == (py p - py c) * (2 * frameThickness s / width s)
          /\ (px p - px c == width s / 2 ->
              px p - px (towards c (holeScale s) p) == frameThickness s))
    /\ (frameThickness s == 0 ->
        forall c p, px (towards c (holeScale s) p) == px p
                    /\ py (towards c (holeScale s) p) == py p).
Proof.
  intros s Hw. unfold holeScale.
  set (q := 2 * frameThickness s / width s).
  assert (Hq : q * width s == 2 * frameThickness s)
    by (unfold q; field; lra).
  assert (Hidle : 4 * frameThickness s <= width s -> Qmax (1 # 2) (1 - q) == 1 - q).
  { intro H. apply Q.max_r. nra. }
  split; [exact Hidle | split; [| split]].
  - intro H. apply Q.max_l. nra.
  - intros H c p. specialize (Hidle H). simpl. rewrite Hidle.
    split; [ring | split; [ring |]].
    intro Ehalf.
    assert (E : px p - (px c + (px p - px c) * (1 - q)) == (px p - px c) * q)
      by ring.
    rewrite E, Ehalf. halves. nra.
  - intros H0 c p.
    assert (Eq : q == 0) by nra.
    assert (E1 : Qmax (1 # 2) (1 - q) == 1)
      by (rewrite Q.max_r; lra).
    simpl. rewrite E1. split; ring.
Qed.

(** The defaults: the scale is [1 - 4/90]. *)
Lemma X6_witness : holeScale Samples.defaults == 1 - 2 * 2 / 90.
Proof.
  apply (X6_hole_scale_clamp Samples.defaults); [reflexivity | discriminate].
Defined.

(** X7. The hole is concentric with the contour: moving every point of a
    non-empty contour towards its vertex mean leaves the vertex mean where
    it was. *)
Theorem X7_hole_keeps_the_centroid :
  forall (s : CutterSettings) (points : list Vector2),
    points <> [] ->
    px (centroid (holePoints s points)) == px (centroid points)
    /\ py (centroid (holePoints s points)) == py (centroid points).
Proof.
  intros s points Hne. destruct points as [|p t]; [congruence |].
  pose proof (count_positive p t) as Hn.
  unfold holePoints.
  set (k := holeScale s).
  assert (Ex : px (centroid (p :: t)) * count (p :: t)
               == total px (p :: t) 0).
  { unfold centroid. cbn [px]. fold (count (p :: t)).
    fold (total px (p :: t) 0). field. lra. }
  assert (Ey : py (centroid (p :: t)) * count (p :: t)
               == total py (p :: t) 0).
  { unfold centroid. cbn [py]. fold (count (p :: t)).
    fold (total py (p :: t) 0). field. lra. }
  set (c := centroid (p :: t)) in *.
  assert (Sx : fold_left (fun a q => a + px q) (map (towards c k) (p :: t)) 0
               == total px (p :: t) 0).
  { rewrite (total_towards px (towards c k) (px c) k (p :: t))
      by (intro; reflexivity).
    rewrite Ex. ring. }
  assert (Sy : fold_left (fun a q => a + py q) (map (towards c k) (p :: t)) 0
               == total py (p :: t) 0).
  { rewrite (total_towards py (towards c k) (py c) k (p :: t))
      by (intro; reflexivity).
    rewrite Ey. ring. }
  unfold centroid at 1 2. rewrite length_map. cbn [px py].
  rewrite Sx, Sy. fold (count (p :: t)).
  split.
  - rewrite <- Ex. field. lra.
  - rewrite <- Ey. field. lra.
Qed.

(** The closed unit square at the defaults. *)
Lemma X7_witness :
  let points := [V2 0 0; V2 1 0; V2 1 1; V2 0 1; V2 0 0] in
  px (centroid (holePoints Samples.defaults points)) == px (centroid points).
Proof.
  apply (X7_hole_keeps_the_centroid Samples.defaults). discriminate.
Defined.

(** A value moved towards another by a factor between 0 and 1 stays
    between the bounds of both. *)
Lemma between_towards (a b c q k : Q) :
  a <= c <= b -> a <= q <= b -> 0 <= k <= 1 ->
  a <= c + (q - c) * k <= b.
Proof.
  intros Hc Hq Hk.
  assert (0 <= (1 - k) * (c - a)) by (apply Qmult_le_0_compat; lra).
  assert (0 <= k * (q - a)) by (apply Qmult_le_0_compat; lra).
  assert (0 <= (1 - k) * (b - c)) by (apply Qmult_le_0_compat; lra).
  assert (0 <= k * (b - q)) by (apply Qmult_le_0_compat; lra).
  split; nra.
Qed.

Section WallFootprint.
Context `{Trig}.

(** The vertices of the outline wall are its contour and hole points,
    lifted. *)
Lemma outline_wall_vertex (s : CutterSettings) (sil : Shape) (v : Vector3) :
  shape s = outline ->
  In v (positions (createCutterFrame s (Some sil))) ->
  exists p, In p (closePoints (getPoints (contour sil))
                  ++ holePoints s (closePoints (getPoints (contour sil))))
            /\ vx v == px p /\ vy v == py p.
Proof.
  intros Hs. unfold createCutterFrame. rewrite Hs.
  change (positions (translate 0 0 (- baseThickness s)
            (ExtrudeGeometry [outlineWallShape s sil]
               (frameHeight s + baseThickness s))))
    with (map (fun u => V3 (vx u + 0) (vy u + 0) (vz u + - baseThickness s))
            (extrudeShape (frameHeight s + baseThickness s)
               (outlineWallShape s sil) ++ [])).
  rewrite app_nil_r. intros Hv.
  apply in_map_iff in Hv. destruct Hv as (u & <- & Hu).
  unfold extrudeShape, outlineWallShape in Hu.
  cbn [contour holes getPoints flat_map] in Hu.
  rewrite app_nil_r in Hu.
  apply in_app_or in Hu.
  destruct Hu as [Hu | Hu]; apply in_map_iff in Hu;
    destruct Hu as (p & <- & Hp); exists p; simpl;
    (split; [exact Hp | split; ring]).
Qed.

Lemma outline_wall_has (s : CutterSettings) (sil : Shape) (p : Vector2) :
  shape s = outline ->
  In p (getPoints (contour sil)) ->
  exists v, In v (positions (createCutterFrame s (Some sil)))
            /\ vx v == px p /\ vy v == py p.
Proof.
  intros Hs Hp. unfold createCutterFrame. rewrite Hs.
  change (positions (translate 0 0 (- baseThickness s)
            (ExtrudeGeometry [outlineWallShape s sil]
               (frameHeight s + baseThickness s))))
    with (map (fun u => V3 (vx u + 0) (vy u + 0) (vz u + - baseThickness s))
            (extrudeShape (frameHeight s + baseThickness s)
               (outlineWallShape s sil) ++ [])).
  rewrite app_nil_r.
  eexists. split.
  - apply in_map. unfold extrudeShape. apply in_or_app. left.
    apply in_map with (f := lift 0).
    apply in_or_app. left. unfold outlineWallShape. simpl.
    apply closePoints_in. exact Hp.
  - simpl. split; ring.
Qed.

End WallFootprint.

(** X8. For a positive width and a wall thickness that is not negative the
    hole stays within the bounding box of the contour (it may still cross
    a contour that is not convex): the planar bounding box of the outline
    wall is the one of the silhouette's contour points, so the width the
    layout measures is the width of the silhouette. *)
Theorem X8_outline_wall_spans_the_silhouette :
  forall (T : Trig) (s : CutterSettings) (sil : Shape) (x0 x1 y0 y1 : Q),
    shape s = outline ->
    0 < width s ->
    0 <= frameThickness s ->
    extent (map px (getPoints (contour sil))) = Some (x0, x1) ->
    extent (map py (getPoints (contour sil))) = Some (y0, y1) ->
    exists b, computeBoundingBox (createCutterFrame s (Some sil)) = Some b
              /\ vx (bmin b) == x0 /\ vx (bmax b) == x1
              /\ vy (bmin b) == y0 /\ vy (bmax b) == y1
              /\ boxWidth b == x1 - x0.
Proof.
  intros T s sil x0 x1 y0 y1 Hs Hw Ht Ex Ey.
  set (raw := getPoints (contour sil)) in *.
  set (points := closePoints raw).
  assert (Hraw : forall p, In p raw ->
                           x0 <= px p <= x1 /\ y0 <= py p <= y1).
  { intros p Hp. split.
    - apply (extent_bounds _ _ _ Ex). now apply in_map.
    - apply (extent_bounds _ _ _ Ey). now apply in_map. }
  assert (Hpts : forall p, In p points ->
                           x0 <= px p <= x1 /\ y0 <= py p <= y1).
  { intros p Hp. apply Hraw. now apply closePoints_in. }
  assert (Hne : points <> []).
  { apply closePoints_nonempty. intro E. rewrite E in Ex. discriminate Ex. }
  assert (Hk : 1 # 2 <= holeScale s <= 1).
  { unfold holeScale. split; [apply Q.le_max_l |].
    apply Q.max_lub; [lra |].
    assert (0 <= 2 * frameThickness s / width s)
      by (apply Qle_shift_div_l; lra).
    lra. }
  assert (Hcx : x0 <= px (centroid points) <= x1).
  { unfold centroid. cbn [px]. fold (count points). fold (total px points 0).
    apply mean_between; [exact Hne |]. intros p Hp. now apply Hpts. }
  assert (Hcy : y0 <= py (centroid points) <= y1).
  { unfold centroid. cbn [py]. fold (count points). fold (total py points 0).
    apply mean_between; [exact Hne |]. intros p Hp. now apply Hpts. }
  destruct (planar_box (createCutterFrame s (Some sil)) x0 x1 y0 y1)
    as (b & Hb & X0 & X1 & Y0 & Y1).
  - intros v Hv.
    destruct (outline_wall_vertex s sil v Hs Hv) as (p & Hp & Evx & Evy).
    fold raw points in Hp. rewrite Evx, Evy.
    apply in_app_or in Hp. destruct Hp as [Hp | Hp]; [now apply Hpts |].
    unfold holePoints in Hp. apply in_map_iff in Hp.
    destruct Hp as (q & <- & Hq). destruct (Hpts q Hq) as [Hqx Hqy].
    simpl. split; apply between_towards; auto; lra.
  - destruct (extent_reached _ _ _ Ex) as ((x & Hx & E) & _).
    apply in_map_iff in Hx. destruct Hx as (p & <- & Hp).
    destruct (outline_wall_has s sil p Hs Hp) as (v & Hv & Evx & _).
    exists v. split; [exact Hv | lra].
  - destruct (extent_reached _ _ _ Ex) as (_ & (x & Hx & E)).
    apply in_map_iff in Hx. destruct Hx as (p & <- & Hp).
    destruct (outline_wall_has s sil p Hs Hp) as (v & Hv & Evx & _).
    exists v. split; [exact Hv | lra].
  - destruct (extent_reached _ _ _ Ey) as ((y & Hy & E) & _).
    apply in_map_iff in Hy. destruct Hy as (p & <- & Hp).
    destruct (outline_wall_has s sil p Hs Hp) as (v & Hv & _ & Evy).
    exists v. split; [exact Hv | lra].
  - destruct (extent_reached _ _ _ Ey) as (_ & (y & Hy & E)).
    apply in_map_iff in Hy. destruct Hy as (p & <- & Hp).
    destruct (outline_wall_has s sil p Hs Hp) as (v & Hv & _ & Evy).
    exists v. split; [exact Hv | lra].
  - exists b. split; [exact Hb |]. unfold boxWidth. rewrite X0, X1.
    repeat split; try assumption; reflexivity.
Qed.

(** The defaults over the tall box: the wall is 1 wide and 2 high before
    the layout scales it. *)
Lemma X8_witness :
  exists b, @computeBoundingBox Samples.flatTrig
              (@createCutterFrame Samples.flatTrig Samples.defaults
                 (Some Samples.tallBox)) = Some b
            /\ boxWidth b == 1.
Proof.
  destruct (X8_outline_wall_spans_the_silhouette Samples.flatTrig
              Samples.defaults Samples.tallBox 0 1 0 2)
    as (b & Hb & _ & _ & _ & _ & Hw);
    try reflexivity; try discriminate.
  exists b. split; [exact Hb |]. rewrite Hw. reflexivity.
Defined.

(** ** The two masks *)

Lemma avg_range (p : Pixel) : byteValued p -> 0 <= avg p <= 255.
Proof.
  intros (Hr & Hg & Hb). unfold avg. split.
  - apply Qle_shift_div_l; [reflexivity |].
    rewrite Qmult_0_l. change 0 with (inject_Z 0). rewrite <- Zle_Qle. lia.
  - apply Qle_shift_div_r; [reflexivity |].
    change (255 * 3) with (inject_Z 765). rewrite <- Zle_Qle. lia.
Qed.

Lemma silhouetteMask_threshold `{Canvas2D} (img : list Pixel) :
  silhouetteMask img
  = map (fun p => grey (if Qltb (avg p) 200 then 0 else 255) 255)
        (drawOnWhite img).
Proof.
  rewrite silhouetteMask_keeps_mask. unfold contentPass.
  rewrite map_map. apply map_ext. intro p. simpl.
  destruct (Qltb (avg p) 200); reflexivity.
Qed.

(** X9. The mask that leaves the silhouette passes is the plain threshold
    of the drawn image at 200, made opaque: a pixel is content exactly when
    the average of its colours is below 200, whatever the blurred shadow
    computes, and every pixel is opaque black or opaque white. *)
Theorem X9_silhouette_mask_is_threshold_at_200 :
  forall (C : Canvas2D) (img : list Pixel),
    silhouetteMask img
    = map (fun p => grey (if Qltb (avg p) 200 then 0 else 255) 255)
          (drawOnWhite img)
    /\ length (silhouetteMask img) = length img
    /\ (forall i q, nth_error (silhouetteMask img) i = Some q ->
                    q = grey 0 255 \/ q = grey 255 255).
Proof.
  intros C img.
  pose proof (silhouetteMask_threshold img) as E.
  split; [exact E | split].
  - rewrite E. unfold drawOnWhite. now rewrite !length_map.
  - intros i q Hq. rewrite E in Hq. apply nth_error_In in Hq.
    apply in_map_iff in Hq. destruct Hq as (p & <- & _).
    destruct (Qltb (avg p) 200); auto.
Qed.

(** X10. At the ends of the threshold slider the relief mask is uniform:
    with a threshold of 0 or less no pixel is dark, with a threshold above
    255 every pixel is; a pixel is then solid exactly when [invert] is on,
    respectively off. *)
Theorem X10_threshold_extremes :
  forall (s : CutterSettings) (d : list Pixel),
    Forall byteValued d ->
    (threshold s <= 0 ->
     thresholdPass s d
     = map (fun _ => grey (if invert s then 0 else 255) 255) d)
    /\ (255 < threshold s ->
        thresholdPass s d
        = map (fun _ => grey (if invert s then 255 else 0) 255) d).
Proof.
  intros s d Hd. split; intro Ht; unfold thresholdPass;
    apply map_ext_in; intros p Hp;
    (assert (Hb : byteValued p)
       by (rewrite Forall_forall in Hd; now apply Hd));
    pose proof (avg_range p Hb) as [H0 H255];
    unfold thresholdPixel, isSolid, isDark.
  - assert (E : Qltb (avg p) (threshold s) = false)
      by (apply Qltb_false; lra).
    rewrite E. destruct (invert s); reflexivity.
  - assert (E : Qltb (avg p) (threshold s) = true)
      by (apply Qltb_true; lra).
    rewrite E. destruct (invert s); reflexivity.
Qed.

(** The defaults with the threshold at 0: both pixels are background. *)
Lemma X10_witness :
  thresholdPass
    {| width := 90; height := 90; baseThickness := 2;
       detailHeight := 35 # 10; invert := false; threshold := 0;
       smoothing := 0; shape := outline; frameThickness := 2;
       frameHeight := 8 |}
    (data Samples.twoPixels)
  = map (fun _ => grey 255 255) (data Samples.twoPixels).
Proof.
  apply (X10_threshold_extremes
           {| width := 90; height := 90; baseThickness := 2;
              detailHeight := 35 # 10; invert := false; threshold := 0;
              smoothing := 0; shape := outline; frameThickness := 2;
              frameHeight := 8 |} (data Samples.twoPixels)).
  - repeat constructor; unfold byteValued; simpl; lia.
  - discriminate.
Defined.

(** X11. Without [invert] and with a threshold of at most 200, every pixel
    the relief mask makes solid is content in the silhouette mask: the
    relief cannot reach outside the silhouette. *)
Theorem X11_relief_mask_inside_silhouette_mask :
  forall (C : Canvas2D) (s : CutterSettings) (img : list Pixel)
         (i : nat) (p : Pixel),
    invert s = false ->
    threshold s <= 200 ->
    nth_error (thresholdPass s (drawOnWhite img)) i = Some p ->
    red p = 0%Z ->
    exists q, nth_error (silhouetteMask img) i = Some q /\ q = grey 0 255.
Proof.
  intros C s img i p Hinv Ht Hp Hred.
  rewrite silhouetteMask_threshold. unfold thresholdPass in Hp.
  rewrite nth_error_map in Hp.
  destruct (nth_error (drawOnWhite img) i) as [x|] eqn:Ex; [| discriminate].
  simpl in Hp. injection Hp as <-.
  eexists. split.
  - exact (map_nth_error
             (fun p0 => grey (if Qltb (avg p0) 200 then 0 else 255) 255)
             _ _ Ex).
  - unfold thresholdPixel, isSolid, isDark in Hred. rewrite Hinv in Hred.
    destruct (Qltb (avg x) (threshold s)) eqn:Ed; [| discriminate Hred].
    apply Qltb_true in Ed.
    assert (E200 : Qltb (avg x) 200 = true) by (apply Qltb_true; lra).
    now rewrite E200.
Qed.

(** The defaults (threshold 160) and a black pixel next to a white one. *)
Lemma X11_witness :
  exists q, nth_error (@silhouetteMask Samples.plainCanvas
                         (data Samples.twoPixels)) 0 = Some q
            /\ q = grey 0 255.
Proof.
  apply (X11_relief_mask_inside_silhouette_mask Samples.plainCanvas
           Samples.defaults (data Samples.twoPixels) 0 (grey 0 255));
    try reflexivity.
  discriminate.
Defined.

(** * Properties of the service and the state handlers *)

(** ** Data URLs and file names *)

Section Pieces.
Import Ascii String.
Local Open Scope string_scope.

Lemma split_nonempty (c : ascii) (s : string) : GeminiService.split c s <> [].
Proof.
  destruct s as [|a rest]; simpl; [discriminate |].
  destruct (Ascii.eqb a c); [discriminate |].
  destruct (GeminiService.split c rest); discriminate.
Qed.

(** A string without the separator is its own single piece. *)
Lemma split_without (c : ascii) (s : string) :
  GeminiService.includes c s = false -> GeminiService.split c s = [s].
Proof.
  induction s as [|a rest IH]; simpl; intro H; [reflexivity |].
  apply orb_false_iff in H. destruct H as [Ha Hrest].
  rewrite Ha, (IH Hrest). reflexivity.
Qed.

(** The first separator ends the first piece. *)
Lemma split_at_first (c : ascii) (h rest : string) :
  GeminiService.includes c h = false ->
  GeminiService.split c (h ++ String c rest)
  = h :: GeminiService.split c rest.
Proof.
  induction h as [|a h' IH]; simpl; intro H.
  - now rewrite Ascii.eqb_refl.
  - apply orb_false_iff in H. destruct H as [Ha Hh].
    rewrite Ha, (IH Hh). reflexivity.
Qed.

Lemma includes_append (c : ascii) (h rest : string) :
  GeminiService.includes c (h ++ rest)
  = GeminiService.includes c h || GeminiService.includes c rest.
Proof.
  induction h as [|a h' IH]; simpl; [reflexivity |].
  rewrite IH. now rewrite orb_assoc.
Qed.

(** No piece contains the separator. *)
Lemma split_pieces_clean (c : ascii) (s : string) :
  Forall (fun piece => GeminiService.includes c piece = false)
         (GeminiService.split c s).
Proof.
  induction s as [|a rest IH]; simpl.
  - repeat constructor.
  - destruct (Ascii.eqb a c) eqn:E.
    + constructor; [reflexivity | exact IH].
    + destruct (GeminiService.split c rest) as [|piece pieces].
      * repeat constructor. simpl. now rewrite E.
      * inversion IH as [|? ? Hp Hps]; subst.
        constructor; [| exact Hps]. simpl. now rewrite E, Hp.
Qed.

(** The pieces, joined by the separator, give the string back. *)
Lemma split_first_prefix (c : ascii) (s : string) :
  exists rest, s = nth 0 (GeminiService.split c s) EmptyString ++ rest.
Proof.
  induction s as [|a s' IH]; simpl.
  - exists EmptyString. reflexivity.
  - destruct (Ascii.eqb a c).
    + exists (String a s'). reflexivity.
    + destruct IH as (rest & E).
      destruct (GeminiService.split c s') as [|piece pieces]; simpl in *.
      * exists s'. reflexivity.
      * exists rest. now rewrite E at 1.
Qed.

Lemma nth_clean (c : ascii) (l : list string) (n : nat) :
  Forall (fun piece => GeminiService.includes c piece = false) l ->
  GeminiService.includes c (nth n l EmptyString) = false.
Proof.
  intro Hl. revert n. induction Hl as [|x l Hx _ IH]; intro n.
  - destruct n; reflexivity.
  - destruct n; [exact Hx | apply IH].
Qed.

Lemma base64Data_between (head middle : string) (pieces : list string) :
  GeminiService.includes GeminiService.comma head = false ->
  forall rest,
    GeminiService.split GeminiService.comma rest = middle :: pieces ->
    GeminiService.base64Data (head ++ String GeminiService.comma rest)
    = middle.
Proof.
  intros Hh rest Hr. unfold GeminiService.base64Data.
  rewrite includes_append.
  replace (GeminiService.includes GeminiService.comma
             (String GeminiService.comma rest)) with true
    by (simpl; rewrite ?Ascii.eqb_refl; reflexivity).
  rewrite orb_true_r, (split_at_first _ _ _ Hh), Hr. reflexivity.
Qed.

End Pieces.

Section DataUrls.
Import Ascii String.
Local Open Scope string_scope.

(** X12. Taking the payload out of a data URL undoes building the URL: for
    a payload without a comma (base64 has none)
    [base64Data (dataUrl payload)] is the payload.  A string without a
    comma is taken as it is, and what is taken out never contains a
    comma: of a string with several commas only the part between the first
    two is kept. *)
Theorem X12_data_url_round_trip :
  forall (payload image : string),
    (GeminiService.includes GeminiService.comma payload = false ->
     GeminiService.base64Data (GeminiService.dataUrl payload) = payload)
    /\ (GeminiService.includes GeminiService.comma image = false ->
        GeminiService.base64Data image = image)
    /\ GeminiService.includes GeminiService.comma
         (GeminiService.base64Data image) = false
    /\ (forall head middle tail,
           GeminiService.includes GeminiService.comma head = false ->
           GeminiService.includes GeminiService.comma middle = false ->
           GeminiService.base64Data
             (head ++ String GeminiService.comma
                        (middle ++ String GeminiService.comma tail))
           = middle).
Proof.
  intros payload image. split; [| split; [| split]].
  - intro Hp. unfold GeminiService.dataUrl.
    change ("data:image/png;base64," ++ payload)
      with ("data:image/png;base64"
            ++ String GeminiService.comma payload).
    apply (base64Data_between _ _ []); [reflexivity |].
    now apply split_without.
  - intro Hi. unfold GeminiService.base64Data. now rewrite Hi.
  - unfold GeminiService.base64Data.
    destruct (GeminiService.includes GeminiService.comma image) eqn:E.
    + apply nth_clean, split_pieces_clean.
    + exact E.
  - intros head middle tail Hh Hm.
    apply (base64Data_between _ _
             (GeminiService.split GeminiService.comma tail)); [exact Hh |].
    now apply split_at_first.
Qed.

(** The payload [AAAA]. *)
Lemma X12_witness :
  GeminiService.base64Data (GeminiService.dataUrl "AAAA") = "AAAA".
Proof.
  apply (X12_data_url_round_trip "AAAA" "AAAA"). reflexivity.
Defined.

(** X13. The title an uploaded file gets is the file name up to its first
    dot: it is a prefix of the name, contains no dot, and is the whole name
    when the name has no dot. *)
Theorem X13_title_is_name_up_to_first_dot :
  forall (name : string),
    (exists rest, name = App.titleOf name ++ rest)
    /\ GeminiService.includes App.dot (App.titleOf name) = false
    /\ (GeminiService.includes App.dot name = false ->
        App.titleOf name = name)
    /\ (forall stem rest,
           GeminiService.includes App.dot stem = false ->
           App.titleOf (stem ++ String App.dot rest) = stem).
Proof.
  intro name. unfold App.titleOf. split; [| split; [| split]].
  - apply split_first_prefix.
  - apply nth_clean, split_pieces_clean.
  - intro Hn. now rewrite (split_without _ _ Hn).
  - intros stem rest Hs. now rewrite (split_at_first _ _ _ Hs).
Qed.

(** The file [face.v2.png] becomes the design [face]. *)
Lemma X13_witness : App.titleOf "face.v2.png" = "face".
Proof.
  apply (proj2 (proj2 (proj2
           (X13_title_is_name_up_to_first_dot "face.v2.png")))
           "face" "v2.png").
  reflexivity.
Defined.

End DataUrls.

(** ** The aspect ratio asked of the image service *)

Lemma ratio_ge (a w h : Q) : 0 < h -> (a <= w / h <-> a * h <= w).
Proof.
  intro Hh. split; intro H.
  - assert (E : w == w / h * h) by (field; lra). rewrite E.
    apply Qmult_le_compat_r; lra.
  - now apply Qle_shift_div_l.
Qed.

Lemma ratio_le (a w h : Q) : 0 < h -> (w / h <= a <-> w <= a * h).
Proof.
  intro Hh. split; intro H.
  - assert (E : w == w / h * h) by (field; lra). rewrite E.
    apply Qmult_le_compat_r; lra.
  - now apply Qle_shift_div_r.
Qed.

(** X14. For a positive height the aspect ratio follows the orientation of
    the footprint: a square footprint asks for [1:1], a footprint wider
    than high never for a portrait ratio, one higher than wide never for a
    landscape ratio; [1:1] is asked exactly when the width is between 0.9
    and 1.1 times the height. *)
Theorem X14_aspect_ratio_follows_orientation :
  forall (w h : Q),
    0 < h ->
    (w == h -> GeminiService.getAspectRatio w h = GeminiService.ratio_1_1)
    /\ (h <= w ->
        GeminiService.getAspectRatio w h <> GeminiService.ratio_3_4
        /\ GeminiService.getAspectRatio w h <> GeminiService.ratio_9_16)
    /\ (w <= h ->
        GeminiService.getAspectRatio w h <> GeminiService.ratio_4_3
        /\ GeminiService.getAspectRatio w h <> GeminiService.ratio_16_9)
    /\ (GeminiService.getAspectRatio w h = GeminiService.ratio_1_1
        <-> (9 # 10) * h <= w <= (11 # 10) * h)
    /\ (GeminiService.getAspectRatio w h = GeminiService.ratio_16_9
        <-> (15 # 10) * h <= w)
    /\ (GeminiService.getAspectRatio w h = GeminiService.ratio_9_16
        <-> w <= (6 # 10) * h).
Proof.
  intros w h Hh. unfold GeminiService.getAspectRatio.
  destruct (Qle_bool (15 # 10) (w / h)) eqn:E1.
  { apply Qle_bool_iff, ratio_ge in E1; [| exact Hh].
    repeat split; intros; try discriminate; try lra. }
  assert (N1 : ~ (15 # 10) * h <= w).
  { intro L. apply (ratio_ge _ _ _ Hh), Qle_bool_iff in L. congruence. }
  destruct (Qle_bool (w / h) (6 # 10)) eqn:E2.
  { apply Qle_bool_iff, ratio_le in E2; [| exact Hh].
    repeat split; intros; try discriminate; try lra. }
  assert (N2 : ~ w <= (6 # 10) * h).
  { intro L. apply (ratio_le _ _ _ Hh), Qle_bool_iff in L. congruence. }
  destruct (Qltb (11 # 10) (w / h)) eqn:E3.
  { apply Qltb_true in E3.
    assert (L3 : ~ w <= (11 # 10) * h)
      by (intro L; apply (ratio_le _ _ _ Hh) in L; lra).
    repeat split; intros; try discriminate; try lra. }
  apply Qltb_false, ratio_le in E3; [| exact Hh].
  destruct (Qltb (w / h) (9 # 10)) eqn:E4.
  { apply Qltb_true in E4.
    assert (L4 : ~ (9 # 10) * h <= w)
      by (intro L; apply (ratio_ge _ _ _ Hh) in L; lra).
    repeat split; intros; try discriminate; try lra. }
  apply Qltb_false, ratio_ge in E4; [| exact Hh].
  repeat split; intros; try discriminate; try lra; try reflexivity.
Qed.

(** The starting footprint, 90 by 90, asks for a square image. *)
Lemma X14_witness :
  GeminiService.getAspectRatio 90 90 = GeminiService.ratio_1_1.
Proof.
  exact (proj1 (X14_aspect_ratio_follows_orientation 90 90 eq_refl)
           (Qeq_refl 90)).
Defined.

(** ** The settings panel *)

Lemma operate_keeps_circle_square (s : CutterSettings) (c : App.Control) :
  (shape s = circle -> width s = height s) ->
  shape (App.operate s c) = circle ->
  width (App.operate s c) = height (App.operate s c).
Proof.
  intro Hinv. destruct c; simpl; try exact Hinv; try discriminate.
  - reflexivity.
  - unfold App.handleDimensionChange.
    destruct (shape s) eqn:Es, dimension; simpl; intro E;
      try reflexivity; try discriminate E; congruence.
Qed.

Lemma operate_keeps_fixed (s : CutterSettings) (c : App.Control) :
  baseThickness (App.operate s c) = baseThickness s
  /\ smoothing (App.operate s c) = smoothing s.
Proof.
  destruct c; simpl; auto.
  unfold App.handleDimensionChange.
  destruct (shape s), dimension; simpl; auto.
Qed.

(** X15. Whatever the controls of the settings panel are operated with and
    in whatever order, a circle footprint stays square (height equal to
    width, so the fit of the relief uses the diameter on both axes), and
    base thickness and smoothing stay at their starting values. *)
Theorem X15_settings_panel_invariants :
  forall (controls : list App.Control),
    let s := App.operateAll App.initialSettings controls in
    (shape s = circle -> width s = height s)
    /\ baseThickness s = 2
    /\ smoothing s = 0.
Proof.
  intro controls. unfold App.operateAll.
  assert (G : forall s0,
             (shape s0 = circle -> width s0 = height s0) ->
             let s := fold_left App.operate controls s0 in
             (shape s = circle -> width s = height s)
             /\ baseThickness s = baseThickness s0
             /\ smoothing s = smoothing s0).
  { induction controls as [|c cs IH]; intros s0 H0; simpl.
    - auto.
    - destruct (IH (App.operate s0 c)
                  (operate_keeps_circle_square s0 c H0)) as (I1 & I2 & I3).
      destruct (operate_keeps_fixed s0 c) as (F1 & F2).
      split; [exact I1 | split; congruence]. }
  apply (G App.initialSettings). discriminate.
Qed.

(** A rectangle made 50 wide and then turned into a circle is 50 by 50. *)
Lemma X15_witness :
  width (App.operateAll App.initialSettings
           [App.ChooseRectangle; App.Slide App.dimWidth 50; App.ChooseCircle])
  = height (App.operateAll App.initialSettings
              [App.ChooseRectangle; App.Slide App.dimWidth 50;
               App.ChooseCircle]).
Proof.
  exact (proj1 (X15_settings_panel_invariants
                  [App.ChooseRectangle; App.Slide App.dimWidth 50;
                   App.ChooseCircle]) eq_refl).
Defined.

(** ** The gallery of designs *)

Lemma filter_twice (A : Type) (f : A -> bool) (l : list A) :
  filter f (filter f l) = filter f l.
Proof.
  induction l as [|a t IH]; simpl; [reflexivity |].
  destruct (f a) eqn:E; simpl; [rewrite E; now f_equal | exact IH].
Qed.

Lemma filter_all (A : Type) (f : A -> bool) (l : list A) :
  (forall a, In a l -> f a = true) -> filter f l = l.
Proof.
  induction l as [|a t IH]; simpl; intro H; [reflexivity |].
  rewrite (H a) by now left. f_equal. apply IH. intros b Hb. apply H.
  now right.
Qed.

Lemma merge_nothing (d : App.DesignAsset) : App.merge d App.noUpdates = d.
Proof. destruct d. reflexivity. Qed.


(** X17. An update touches only the designs with the given id: the list
    keeps its length, every design with another id stays in it unchanged,
    the ids stay as they are when the update carries none, an id that is
    not in the list makes the update do nothing, and so does an update
    without keys. *)
Theorem X17_update_design :
  forall (target : App.string) (updates : App.Updates)
         (l : list App.DesignAsset),
    length (App.updateDesign target updates l) = length l
    /\ (forall i d, nth_error l i = Some d -> App.id d <> target ->
                    nth_error (App.updateDesign target updates l) i = Some d)
    /\ (App.newId updates = None ->
        map App.id (App.updateDesign target updates l) = map App.id l)
    /\ (App.findDesign target l = None ->
        App.updateDesign target updates l = l)
    /\ App.updateDesign target App.noUpdates l = l.
Proof.
  intros target updates l. unfold App.updateDesign.
  split; [| split; [| split; [| split]]].
  - apply length_map.
  - intros i d Hd Hid. rewrite nth_error_map, Hd. simpl.
    apply String.eqb_neq in Hid. now rewrite Hid.
  - intro Hno. rewrite map_map. apply map_ext. intro d.
    destruct (String.eqb (App.id d) target); [| reflexivity].
    unfold App.merge. simpl. now rewrite Hno.
  - intro Hnone. rewrite <- (map_id l) at 2. apply map_ext_in.
    intros d Hd. unfold App.findDesign in Hnone.
    now rewrite (find_none _ _ Hnone d Hd).
  - rewrite <- (map_id l) at 2. apply map_ext. intro d.
    destruct (String.eqb (App.id d) target); [apply merge_nothing |].
    reflexivity.
Qed.

Section GalleryExamples.
Import String.
Local Open Scope string_scope.


(** Updating the status of [b] leaves [a], at index 0, as it is. *)
Lemma X17_witness :
  nth_error
    (App.updateDesign "b"
       (App.mkUpdates None None None None None None (Some App.done) None None)
       [App.mkDesignAsset "a" "t" "p" App.portrait None None App.idle None []])
    0
  = Some (App.mkDesignAsset "a" "t" "p" App.portrait None None App.idle
            None []).
Proof.
  apply (X17_update_design "b"); [reflexivity | discriminate].
Defined.

End GalleryExamples.

(** * Further examples *)

(** The closed unit square stays as it is. *)
Lemma X5_witness :
  closePoints [V2 0 0; V2 1 0; V2 1 1; V2 0 1; V2 0 0]
  = [V2 0 0; V2 1 0; V2 1 1; V2 0 1; V2 0 0].
Proof.
  apply (proj2 (proj2 (proj2
           (X5_closing_a_contour_is_idempotent
              [V2 0 0; V2 1 0; V2 1 1; V2 0 1; V2 0 0])))
           (V2 0 0) [V2 1 0; V2 1 1; V2 0 1; V2 0 0]);
    reflexivity.
Defined.

(** The first pixel of the mask of a black and a white pixel. *)
Lemma X9_witness :
  grey 0 255 = grey 0 255 \/ grey 0 255 = grey 255 255.
Proof.
  apply (proj2 (proj2
           (X9_silhouette_mask_is_threshold_at_200 Samples.plainCanvas
              (data Samples.twoPixels))) 0%nat (grey 0 255)).
  reflexivity.
Defined.

(** * The circle footprint *)

Lemma atRadius_scaled (r eps n : Q) :
  1 - eps <= n <= 1 + eps -> atRadius r eps (r * r * n).
Proof.
  intros [H1 H2]. unfold atRadius.
  assert (Hr : 0 <= r * r) by nra.
  assert (0 <= r * r * (n - (1 - eps))) by (apply Qmult_le_0_compat; lra).
  assert (0 <= r * r * (1 + eps - n)) by (apply Qmult_le_0_compat; lra).
  split; nra.
Qed.

Lemma atRadius_compat (r eps d d' : Q) :
  d == d' -> atRadius r eps d -> atRadius r eps d'.
Proof. unfold atRadius. intros E [H1 H2]. split; lra. Qed.

Section CircleFootprint.
Context `{T : Trig}.
Variable eps : Q.
Hypothesis near_circle : nearUnitCircle T eps.

Lemma ring_radius (radius yc : Q) (n : nat) (v : Vector3) :
  In v (ring radius yc n) ->
  atRadius radius eps (vx v * vx v + vz v * vz v).
Proof.
  unfold ring. intro Hv. apply in_map_iff in Hv.
  destruct Hv as (i & <- & _). simpl.
  set (u := inject_Z (Z.of_nat i) / inject_Z (Z.of_nat n)).
  apply (atRadius_compat _ _
           (radius * radius
            * (cosTurn u * cosTurn u + sinTurn u * sinTurn u)));
    [ring | apply atRadius_scaled, near_circle].
Qed.

Lemma cap_radius (radius yc : Q) (n : nat) (v : Vector3) :
  In v (cap radius yc n) ->
  atRadius radius eps (vx v * vx v + vz v * vz v)
  \/ (vx v == 0 /\ vz v == 0).
Proof.
  unfold cap. destruct (Qltb 0 radius); [| contradiction].
  intro Hv. apply in_app_or in Hv. destruct Hv as [Hv | Hv].
  - apply repeat_spec in Hv. subst. right. split; reflexivity.
  - left. now apply ring_radius in Hv.
Qed.

Lemma arc_radius (radius : Q) (cw : bool) (p : Vector2) :
  In p (getPoints (AbsArc 0 0 radius cw)) ->
  atRadius radius eps (px p * px p + py p * py p).
Proof.
  change (getPoints (AbsArc 0 0 radius cw))
    with (map (arcPoint 0 0 radius cw) (seq 0 (S arcDivisions))).
  intro Hp. apply in_map_iff in Hp.
  destruct Hp as (i & <- & _). unfold arcPoint. cbn [px py].
  set (t := inject_Z (Z.of_nat i) / inject_Z (Z.of_nat arcDivisions)).
  set (u := if cw then - t else t).
  apply (atRadius_compat _ _
           (radius * radius
            * (cosTurn u * cosTurn u + sinTurn u * sinTurn u)));
    [ring | apply atRadius_scaled, near_circle].
Qed.

Lemma circle_base_vertices (s : CutterSettings) (v : Vector3) :
  shape s <> rectangle ->
  In v (positions (createBasePlate s None)) ->
  atRadius (width s / 2) eps (axisDistance2 v) \/ axisDistance2 v == 0.
Proof.
  intros Hs. unfold createBasePlate.
  assert (G : In v (positions
                (translate 0 0 (- baseThickness s / 2)
                   (rotateX_halfPi
                      (CylinderGeometry (width s / 2) (width s / 2)
                         (baseThickness s) 64)))) ->
              atRadius (width s / 2) eps (axisDistance2 v)
              \/ axisDistance2 v == 0).
  { change (positions
              (translate 0 0 (- baseThickness s / 2)
                 (rotateX_halfPi
                    (CylinderGeometry (width s / 2) (width s / 2)
                       (baseThickness s) 64))))
      with (map (fun u => V3 (vx u + 0) (vy u + 0)
                              (vz u + - baseThickness s / 2))
              (map (fun u => V3 (vx u) (- vz u) (vy u))
                 (cylinderVertices (width s / 2) (width s / 2)
                    (baseThickness s) 64))).
    rewrite map_map. intro Hv. apply in_map_iff in Hv.
    destruct Hv as (u & <- & Hu). unfold axisDistance2. cbn [vx vy].
    assert (E : vx u * vx u + vz u * vz u
                == (vx u + 0) * (vx u + 0) + (- vz u + 0) * (- vz u + 0))
      by ring.
    unfold cylinderVertices in Hu.
    repeat (apply in_app_or in Hu; destruct Hu as [Hu | Hu]).
    - left. apply (atRadius_compat _ _ _ _ E). now apply ring_radius in Hu.
    - left. apply (atRadius_compat _ _ _ _ E). now apply ring_radius in Hu.
    - apply cap_radius in Hu. destruct Hu as [Hu | [E1 E2]];
        [left; now apply (atRadius_compat _ _ _ _ E)
        | right; rewrite E1, E2; ring].
    - apply cap_radius in Hu. destruct Hu as [Hu | [E1 E2]];
        [left; now apply (atRadius_compat _ _ _ _ E)
        | right; rewrite E1, E2; ring]. }
  destruct (shape s); [congruence | exact G | exact G].
Qed.

Lemma circle_wall_vertices (s : CutterSettings) (v : Vector3) :
  shape s <> rectangle ->
  In v (positions (createCutterFrame s None)) ->
  atRadius (width s / 2 + frameThickness s) eps (axisDistance2 v)
  \/ atRadius (width s / 2) eps (axisDistance2 v).
Proof.
  intros Hs. unfold createCutterFrame.
  assert (G : In v (positions
                (translate 0 0 (- baseThickness s)
                   (ExtrudeGeometry
                      [circleWallShape (width s / 2) (frameThickness s)]
                      (frameHeight s + baseThickness s)))) ->
              atRadius (width s / 2 + frameThickness s) eps (axisDistance2 v)
              \/ atRadius (width s / 2) eps (axisDistance2 v)).
  { change (positions
              (translate 0 0 (- baseThickness s)
                 (ExtrudeGeometry
                    [circleWallShape (width s / 2) (frameThickness s)]
                    (frameHeight s + baseThickness s))))
      with (map (fun u => V3 (vx u + 0) (vy u + 0)
                              (vz u + - baseThickness s))
              (extrudeShape (frameHeight s + baseThickness s)
                 (circleWallShape (width s / 2) (frameThickness s)) ++ [])).
    rewrite app_nil_r. intro Hv. apply in_map_iff in Hv.
    destruct Hv as (u & <- & Hu). unfold axisDistance2. cbn [vx vy].
    unfold extrudeShape, circleWallShape in Hu.
    cbn [contour holes flat_map] in Hu. rewrite app_nil_r in Hu.
    assert (P : exists p,
               In p (getPoints (AbsArc 0 0 (width s / 2 + frameThickness s)
                                  false)
                     ++ getPoints (AbsArc 0 0 (width s / 2) true))
               /\ vx u = px p /\ vy u = py p).
    { apply in_app_or in Hu. destruct Hu as [Hu | Hu];
        apply in_map_iff in Hu; destruct Hu as (p & <- & Hp);
        exists p; auto. }
    destruct P as (p & Hp & -> & ->).
    assert (E : px p * px p + py p * py p
                == (px p + 0) * (px p + 0) + (py p + 0) * (py p + 0))
      by ring.
    apply in_app_or in Hp.
    destruct Hp as [Hp | Hp]; [left | right];
      apply (atRadius_compat _ _ _ _ E); now apply arc_radius in Hp. }
  destruct (shape s); [congruence | exact G | exact G].
Qed.

End CircleFootprint.


Lemma rationalTrig_on_circle : nearUnitCircle Samples.rationalTrig 0.
Proof.
  intro u. simpl.
  assert (Hpos : 0 < 1 + u * u) by nra.
  assert (E : (1 - u * u) / (1 + u * u) * ((1 - u * u) / (1 + u * u))
              + 2 * u / (1 + u * u) * (2 * u / (1 + u * u)) == 1)
    by (field; lra).
  rewrite E. split; lra.
Qed.


(** * Asking for the image of a design *)

Lemma find_after_filter (target : App.string) (l : list App.DesignAsset) :
  App.findDesign target
    (filter (fun d => negb (String.eqb (App.id d) target)) l) = None.
Proof.
  unfold App.findDesign. induction l as [|d t IH]; simpl; [reflexivity |].
  destruct (String.eqb (App.id d) target) eqn:E; simpl; [exact IH |].
  now rewrite E.
Qed.

Lemma onDesign_absent (target : App.string)
  (f : App.DesignAsset -> App.DesignAsset) (l : list App.DesignAsset) :
  App.findDesign target l = None -> onDesign target f l = l.
Proof.
  intro Hnone. unfold onDesign. rewrite <- (map_id l) at 2.
  apply map_ext_in. intros d Hd. unfold App.findDesign in Hnone.
  now rewrite (find_none _ _ Hnone d Hd).
Qed.

Lemma generateAssetSettled_answers (target : App.string)
  (result : option App.string) (g : App.Gallery) :
  App.generateAssetSettled target result g
  = App.mkGallery (onDesign target (fun d => answered d result)
                     (App.designs g))
                  (App.selectedDesignId g).
Proof.
  unfold App.generateAssetSettled, onDesign.
  apply (f_equal (fun l => App.mkGallery l (App.selectedDesignId g))).
  destruct result as [url|]; unfold App.updateDesign; apply map_ext;
    intro d; destruct (String.eqb (App.id d) target); reflexivity.
Qed.

(** X18. Asking for the image of a design that the handler does not find
    does nothing.  Otherwise every design with that id is marked as
    generating, its error message cleared, and the id selected.  When the
    answer arrives, the designs that then have the id get the new image
    and are marked done, or are marked failed with the message and keep
    their image; the other designs and the selection are left as they then
    are.  So an answer for a design removed in the meantime changes
    nothing, and an answer that follows the request directly leaves the
    design selected and settled. *)
Theorem X18_generate_asset_settles_the_design :
  forall (target : App.string) (result : option App.string)
         (seen : list App.DesignAsset) (g late : App.Gallery),
    (App.findDesign target seen = None ->
     App.handleGenerateAsset target seen g = None)
    /\ (App.findDesign target seen <> None ->
        App.handleGenerateAsset target seen g
        = Some (App.mkGallery (onDesign target pending (App.designs g))
                              (Some target)))
    /\ App.generateAssetSettled target result late
       = App.mkGallery (onDesign target (fun d => answered d result)
                          (App.designs late))
                       (App.selectedDesignId late)
    /\ (App.findDesign target (App.designs late) = None ->
        App.generateAssetSettled target result late = late)
    /\ (forall started,
           App.handleGenerateAsset target seen g = Some started ->
           App.generateAssetSettled target result
             (App.removeDesign target started)
           = App.removeDesign target started)
    /\ (forall started,
           App.handleGenerateAsset target seen g = Some started ->
           App.generateAssetSettled target result started
           = App.mkGallery
               (onDesign target (fun d => answered (pending d) result)
                  (App.designs g))
               (Some target)).
Proof.
  intros target result seen g late.
  assert (Hstart : App.findDesign target seen <> None ->
            App.handleGenerateAsset target seen g
            = Some (App.mkGallery (onDesign target pending (App.designs g))
                                  (Some target))).
  { unfold App.handleGenerateAsset.
    destruct (App.findDesign target seen) as [found|]; [| congruence].
    intros _. apply f_equal.
    apply (f_equal (fun l => App.mkGallery l (Some target))).
    unfold App.updateDesign, onDesign.
    apply map_ext. intro d.
    destruct (String.eqb (App.id d) target); reflexivity. }
  assert (Habsent : forall x, App.findDesign target (App.designs x) = None ->
            App.generateAssetSettled target result x = x).
  { intros x Hx. rewrite generateAssetSettled_answers.
    rewrite (onDesign_absent _ _ _ Hx). destruct x. reflexivity. }
  split; [| split; [| split; [| split; [| split]]]].
  - unfold App.handleGenerateAsset. intros ->. reflexivity.
  - exact Hstart.
  - apply generateAssetSettled_answers.
  - apply Habsent.
  - intros started _. apply Habsent. unfold App.removeDesign. simpl.
    apply find_after_filter.
  - intros started Hs.
    assert (Hfound : App.findDesign target seen <> None).
    { unfold App.handleGenerateAsset in Hs.
      destruct (App.findDesign target seen); [discriminate | discriminate Hs]. }
    rewrite (Hstart Hfound) in Hs. injection Hs as <-.
    rewrite generateAssetSettled_answers. simpl.
    apply (f_equal (fun l => App.mkGallery l (Some target))).
    unfold onDesign. rewrite map_map. apply map_ext. intro d.
    destruct (String.eqb (App.id d) target) eqn:E; simpl; rewrite ?E;
      reflexivity.
Qed.

Section AskingExamples.
Import String.
Local Open Scope string_scope.

(** The image of [b] is asked for, [b] is removed, the answer arrives: [a]
    is all there is, and nothing is selected. *)
Lemma X18_witness :
  let a := App.mkDesignAsset "a" "t" "p" App.portrait None None App.idle
             None [] in
  let b := App.mkDesignAsset "b" "t" "p" App.portrait None None App.idle
             None [] in
  App.handleGenerateAsset "b" [a; b] (App.mkGallery [a; b] None)
  = Some (App.mkGallery [a; pending b] (Some "b"))
  /\ App.generateAssetSettled "b" (Some "url")
       (App.removeDesign "b" (App.mkGallery [a; pending b] (Some "b")))
     = App.mkGallery [a] None.
Proof.
  intros a b.
  destruct (X18_generate_asset_settles_the_design "b" (Some "url") [a; b]
              (App.mkGallery [a; b] None) (App.mkGallery [a; b] None))
    as (_ & Hstart & _ & _ & Hgone & _).
  split.
  - apply Hstart. discriminate.
  - apply (Hgone (App.mkGallery [a; pending b] (Some "b"))).
    apply Hstart. discriminate.
Defined.

End AskingExamples.
